(** * awscli.customizations.datapipeline: a shallow embedding

    The Python module [awscli/customizations/datapipeline/__init__.py] is
    embedded function by function.  Python values are given the types the
    code uses them at: [str] is [string], a list is a [list], a [dict] with
    string keys whose iteration order is never observed is a [gmap string],
    [None] is [None] of an [option].  A raised exception is the [Raise]
    branch of [result]; code that talks to the service or writes to the
    output stream runs in the monad [IO], which threads the log of the
    effects performed so far. *)

From Stdlib Require Import ZArith String Ascii List Permutation Sorted Lia.
From Stdlib Require Import DecimalString OrderedTypeEx.
From stdpp Require Import base option list sorting strings gmap.

Set Warnings "-register-all".

Local Open Scope string_scope.
Local Open Scope list_scope.
Local Open Scope Z_scope.

(** ** Python runtime: exceptions and built-in string operations *)

Module Py.

(** The built-in exceptions the module can raise, with their argument. *)
Inductive exn : Type :=
| KeyError (key : string)
| ValueError (msg : string)
| IndexError (msg : string)
| TypeError (msg : string)
| OverflowError (msg : string).

Inductive result (A : Type) : Type :=
| Ok (a : A)
| Raise (e : exn).
Arguments Ok {A} a.
Arguments Raise {A} e.

Definition is_ok {A} (r : result A) : bool :=
  match r with Ok _ => true | Raise _ => false end.

#[export] Instance result_ret : MRet result := @Ok.
#[export] Instance result_bind : MBind result := fun A B f r =>
  match r with
  | Ok a => f a
  | Raise e => Raise e
  end.

(** [seq[i]] on a list, for a literal index [i >= 0]. *)
Definition getitem {A} (l : list A) (i : nat) : result A :=
  match l !! i with
  | Some x => Ok x
  | None => Raise (IndexError "list index out of range")
  end.

(** [d[k]] on a dict. *)
Definition dict_getitem {V} (d : gmap string V) (k : string) : result V :=
  match d !! k with
  | Some v => Ok v
  | None => Raise (KeyError k)
  end.

(** [d.get(k, default)]. *)
Definition dict_get {V} (d : gmap string V) (k : string) (default : V) : V :=
  match d !! k with
  | Some v => v
  | None => default
  end.

(** [x in l] for a list of strings. *)
Definition str_in (x : string) (l : list string) : bool :=
  bool_decide (x ∈ l).

(** [sep.join(l)]. *)
Fixpoint join (sep : string) (l : list string) : string :=
  match l with
  | [] => ""
  | [x] => x
  | x :: rest => x +:+ sep +:+ join sep rest
  end.

(** [s.split(c)] for a one-character separator [c]: the pieces between
    the occurrences of [c]; never empty, [''.split(',')] is [['']]. *)
Fixpoint split (c : ascii) (s : string) : list string :=
  match s with
  | EmptyString => [""]
  | String a rest =>
      if Ascii.eqb a c then "" :: split c rest
      else match split c rest with
           | [] => [String a ""]
           | piece :: pieces => String a piece :: pieces
           end
  end.

(** The characters [str.strip()] removes, among the code points below
    256: space, \t \n \v \f \r, the separators \x1c .. \x1f, \x85 and
    \xa0. *)
Definition isspace (a : ascii) : bool :=
  let n := nat_of_ascii a in
  (Nat.eqb n 32 || (Nat.leb 9 n && Nat.leb n 13)
   || (Nat.leb 28 n && Nat.leb n 31) || Nat.eqb n 133 || Nat.eqb n 160)%bool.

Fixpoint lstrip (s : string) : string :=
  match s with
  | EmptyString => ""
  | String a rest => if isspace a then lstrip rest else s
  end.

Fixpoint rstrip (s : string) : string :=
  match s with
  | EmptyString => ""
  | String a rest =>
      match rstrip rest with
      | EmptyString => if isspace a then "" else String a ""
      | kept => String a kept
      end
  end.

Definition strip (s : string) : string := rstrip (lstrip s).

(** [c * n] for a one-character string [c]. *)
Fixpoint repeat_char (c : ascii) (n : nat) : string :=
  match n with
  | O => ""
  | S n' => String c (repeat_char c n')
  end.

(** The first [n] characters of [s]. *)
Fixpoint take_str (n : nat) (s : string) : string :=
  match n, s with
  | O, _ => ""
  | S _, EmptyString => ""
  | S n', String a rest => String a (take_str n' rest)
  end.

(** ['%-W.Ps' % s]: [s] cut to at most [P] characters, then padded with
    spaces on the right to at least [W]. *)
Definition fmt_ljust (width prec : nat) (s : string) : string :=
  let cut := take_str prec s in
  cut +:+ repeat_char " " (width - String.length cut)%nat.

(** [str(n)] for an integer. *)
Definition str_of_int (n : Z) : string :=
  NilZero.string_of_int (Z.to_int n).

(** ['%Wd' % n]: decimal, padded with spaces on the left to at least [W]. *)
Definition fmt_rjust_d (width : nat) (n : Z) : string :=
  let digits := str_of_int n in
  repeat_char " " (width - String.length digits)%nat +:+ digits.

(** ['%0Wd' % n] for [0 <= n]: the last [W] decimal digits of [n], which
    are all of them when [n < 10^W]. *)
Fixpoint fmt_zero_d (width : nat) (n : Z) : string :=
  match width with
  | O => ""
  | S w => fmt_zero_d w (n / 10)
           +:+ String (ascii_of_nat (48 + Z.to_nat (n mod 10))%nat) ""
  end.

(** [str(v)] as [%s] applies it to a value that is a string or [None]. *)
Definition str_of_value (v : option string) : string :=
  match v with
  | Some s => s
  | None => "None"
  end.

End Py.
Export Py.

(** ** [datetime]: the part of the standard module the query builder uses

    Naive datetimes of the proleptic Gregorian calendar, with the ordinal
    arithmetic of CPython's [datetime] ([_ymd2ord], [_ord2ymd]). *)

Module Datetime.

Record datetime : Type := mk_datetime {
  year : Z; month : Z; day : Z;
  hour : Z; minute : Z; second : Z
}.

Definition _MAXORDINAL : Z := 3652059.
Definition _DI400Y : Z := 146097.
Definition _DI100Y : Z := 36524.
Definition _DI4Y : Z := 1461.

Definition _is_leap (y : Z) : bool :=
  ((y mod 4 =? 0) && (negb (y mod 100 =? 0) || (y mod 400 =? 0)))%bool.

Definition _days_before_year (y : Z) : Z :=
  let p := y - 1 in p * 365 + p / 4 - p / 100 + p / 400.

(** [_DAYS_IN_MONTH[m]]; index 0 holds the placeholder -1. *)
Definition _DAYS_IN_MONTH (m : Z) : Z :=
  nth (Z.to_nat m) [-1; 31; 28; 31; 30; 31; 30; 31; 31; 30; 31; 30; 31] 0.

(** [_DAYS_BEFORE_MONTH[m]]: days of a common year before month [m]. *)
Definition _DAYS_BEFORE_MONTH (m : Z) : Z :=
  nth (Z.to_nat m) [-1; 0; 31; 59; 90; 120; 151; 181; 212; 243; 273; 304; 334] 0.

Definition _days_in_month (y m : Z) : Z :=
  if ((m =? 2) && _is_leap y)%bool then 29 else _DAYS_IN_MONTH m.

Definition _days_before_month (y m : Z) : Z :=
  _DAYS_BEFORE_MONTH m + (if ((2 <? m) && _is_leap y)%bool then 1 else 0).

Definition _ymd2ord (y m d : Z) : Z :=
  _days_before_year y + _days_before_month y m + d.

Definition _ord2ymd (ordinal : Z) : Z * Z * Z :=
  let n := ordinal - 1 in
  let n400 := n / _DI400Y in
  let n := n mod _DI400Y in
  let n100 := n / _DI100Y in
  let n := n mod _DI100Y in
  let n4 := n / _DI4Y in
  let n := n mod _DI4Y in
  let n1 := n / 365 in
  let n := n mod 365 in
  let y := n400 * 400 + 1 + n100 * 100 + n4 * 4 + n1 in
  if ((n1 =? 4) || (n100 =? 4))%bool then (y - 1, 12, 31)
  else
    let leapyear := ((n1 =? 3) && (negb (n4 =? 24) || (n100 =? 3)))%bool in
    let m := Z.shiftr (n + 50) 5 in
    let preceding :=
      _DAYS_BEFORE_MONTH m + (if ((2 <? m) && leapyear)%bool then 1 else 0) in
    if n <? preceding then
      let m' := m - 1 in
      let preceding' :=
        preceding
        - (_DAYS_IN_MONTH m' + (if ((m' =? 2) && leapyear)%bool then 1 else 0)) in
      (y, m', n - preceding' + 1)
    else (y, m, n - preceding + 1).

Definition toordinal (t : datetime) : Z :=
  _ymd2ord (year t) (month t) (day t).

(** [t - timedelta(days=n)]: [datetime.__add__] with the negated delta.
    The time of day is carried as seconds and split again; a day count
    outside [1 .. _MAXORDINAL] raises. *)
Definition sub_days (t : datetime) (n : Z) : result datetime :=
  let days := toordinal t - n in
  let seconds := hour t * 3600 + minute t * 60 + second t in
  let h := seconds / 3600 in
  let rem := seconds mod 3600 in
  if ((0 <? days) && (days <=? _MAXORDINAL))%bool then
    let '(y, m, d) := _ord2ymd days in
    Ok (mk_datetime y m d h (rem / 60) (rem mod 60))
  else Raise (OverflowError "date value out of range").

(** [t.strftime('%Y-%m-%dT%H:%M:%S')], [%Y] as four digits and the other
    fields as two, all zero-padded. *)
Definition strftime_iso (t : datetime) : string :=
  fmt_zero_d 4 (year t) +:+ "-" +:+ fmt_zero_d 2 (month t) +:+ "-"
  +:+ fmt_zero_d 2 (day t) +:+ "T" +:+ fmt_zero_d 2 (hour t) +:+ ":"
  +:+ fmt_zero_d 2 (minute t) +:+ ":" +:+ fmt_zero_d 2 (second t).

(** The checks of the [datetime] constructor. *)
Definition valid (t : datetime) : Prop :=
  1 <= year t <= 9999 /\ 1 <= month t <= 12
  /\ 1 <= day t <= _days_in_month (year t) (month t)
  /\ 0 <= hour t <= 23 /\ 0 <= minute t <= 59 /\ 0 <= second t <= 59.

End Datetime.
Export Datetime.


(** ** Data of the service API *)

(** A field of a pipeline object: [{'key': .., 'stringValue': ..}] or
    [{'key': .., 'refValue': ..}]; a value key that the dict lacks is [None]. *)
Record ApiField : Type := mk_field {
  key : string;
  stringValue : option string;
  refValue : option string
}.

Record ApiObject : Type := mk_object {
  id : string;
  name : string;
  fields : list ApiField
}.

(** The spec's well-formed field: exactly one of the two values. *)
Definition well_formed_field (f : ApiField) : Prop :=
  (is_Some (stringValue f) /\ refValue f = None)
  \/ (stringValue f = None /\ is_Some (refValue f)).

(** ** Comparison of sort keys

    [a < b] as [list.sort] evaluates it on the keys.  A string or [None]
    ([option string]): two strings compare by code points, and [None] has
    no ordering, neither with a string nor with [None] (in Python 2 it
    was smaller than every string).  A tuple compares by the first
    position at which the two differ under [==], and is not smaller when
    there is none. *)

Class PyOrd (K : Type) : Type := {
  py_eq : K -> K -> bool;
  py_lt : K -> K -> result bool
}.

Definition type_name (v : option string) : string :=
  match v with
  | Some _ => "str"
  | None => "NoneType"
  end.

#[export] Instance PyOrd_value : PyOrd (option string) := {
  py_eq a b := bool_decide (a = b);
  py_lt a b :=
    match a, b with
    | Some x, Some y => Ok (String.ltb x y)
    | _, _ =>
        Raise (TypeError ("'<' not supported between instances of '"
                          +:+ type_name a +:+ "' and '" +:+ type_name b +:+ "'"))
    end
}.

#[export] Instance PyOrd_pair {A B} `{PyOrd A, PyOrd B} : PyOrd (A * B) := {
  py_eq a b := (py_eq (fst a) (fst b) && py_eq (snd a) (snd b))%bool;
  py_lt a b :=
    if py_eq (fst a) (fst b) then
      if py_eq (snd a) (snd b) then Ok false
      else py_lt (snd a) (snd b)
    else py_lt (fst a) (fst b)
}.

(** [l.sort(key=f)]: a stable sort that decides with [<] on the keys
    alone and lets the exception of a comparison through.  [sort_insert]
    puts [x], which stood before every element of [l], in front of the
    first element that is not smaller than it.  On two elements this is
    the one comparison [list.sort] makes, of the second key with the
    first. *)
Fixpoint sort_insert {K A} `{PyOrd K} (f : A -> K) (x : A) (l : list A)
  : result (list A) :=
  match l with
  | [] => Ok [x]
  | y :: rest =>
      smaller ← py_lt (f y) (f x);
      if (smaller : bool) then
        placed ← sort_insert f x rest; Ok (y :: placed)
      else Ok (x :: y :: rest)
  end.

Fixpoint list_sort {K A} `{PyOrd K} (f : A -> K) (l : list A)
  : result (list A) :=
  match l with
  | [] => Ok []
  | x :: rest => sorted ← list_sort f rest; sort_insert f x sorted
  end.

(** ** [convert_described_objects] *)

(** A converted object: a dict from field key to a string or [None]. *)
Abbreviation Record_ := (gmap string (option string)).

(** [field.get('stringValue', field.get('refValue'))] *)
Definition field_value (field : ApiField) : option string :=
  match stringValue field with
  | Some s => Some s
  | None => refValue field
  end.

(** The body of the loop over [api_describe_objects]. *)
Definition convert_object (obj : ApiObject) : Record_ :=
  let new_fields : Record_ :=
    <["name" := Some (name obj)]> (<["@id" := Some (id obj)]> ∅) in
  foldl (fun (d : Record_) field => <[key field := field_value field]> d)
        new_fields (fields obj).

Definition convert_described_objects {K} `{PyOrd K}
    (api_describe_objects : list ApiObject)
    (sort_key_func : option (Record_ -> K)) : result (list Record_) :=
  let converted := map convert_object api_describe_objects in
  match sort_key_func with
  | Some f => list_sort f converted
  | None => Ok converted
  end.

(** ** [QueryArgBuilder] *)

Record Operator : Type := mk_operator {
  type : string;
  values : list string
}.

Record RunSelector : Type := mk_selector {
  fieldName : string;
  operator : Operator
}.

Record RunQuery : Type := mk_query {
  selectors : list RunSelector
}.

(** [parsed_args] as [build_query] reads it, after [_parse_type_args]. *)
Record ParsedArgs : Type := mk_parsed_args {
  pipeline_id : string;
  status : option (list string);
  start_interval : option (list string);
  schedule_interval : option (list string)
}.

Record QueryArgBuilder : Type := mk_builder {
  current_time : datetime
}.

(** [_build_schedule_times]: [selectors] is appended to in place, so the
    list comes back as the result. *)
Definition _build_schedule_times (selectors : list RunSelector)
    (parsed_args : ParsedArgs) : result (list RunSelector) :=
  selectors ←
    match start_interval parsed_args with
    | Some interval =>
        start_time_str ← getitem interval 0;
        end_time_str ← getitem interval 1;
        Ok (selectors ++
            [mk_selector "@actualStartTime"
               (mk_operator "BETWEEN" [start_time_str; end_time_str])])
    | None => Ok selectors
    end;
  match schedule_interval parsed_args with
  | Some interval =>
      start_time_str ← getitem interval 0;
      end_time_str ← getitem interval 1;
      Ok (selectors ++
          [mk_selector "@scheduleStartTime"
             (mk_operator "BETWEEN" [start_time_str; end_time_str])])
  | None => Ok selectors
  end.

Definition _build_status (selectors : list RunSelector)
    (statuses : list string) : list RunSelector :=
  selectors ++ [mk_selector "@status" (mk_operator "EQ" statuses)].

Definition build_query (self : QueryArgBuilder) (parsed_args : ParsedArgs)
  : result RunQuery :=
  let selectors := [] in
  selectors ←
    match start_interval parsed_args, schedule_interval parsed_args with
    | None, None =>
        let end_datetime := current_time self in
        start_datetime ← sub_days end_datetime 4;
        let start_time_str := strftime_iso start_datetime in
        let end_time_str := strftime_iso end_datetime in
        Ok (selectors ++
            [mk_selector "@actualStartTime"
               (mk_operator "BETWEEN" [start_time_str; end_time_str])])
    | _, _ => _build_schedule_times selectors parsed_args
    end;
  let selectors :=
    match status parsed_args with
    | Some statuses => _build_status selectors statuses
    | None => selectors
    end in
  Ok (mk_query selectors).

(** ** Effects: the service calls and the output stream

    A computation of [IO A] receives the log of the effects performed so
    far and returns the extended log with its result.  What the session,
    the service and the clock answer is input, collected in [Service];
    writing to the stream succeeds. *)

Inductive event : Type :=
| GetService (service_name : string)
| GetEndpoint
| CallQueryObjects (pipeline : string) (sphere : string) (query : RunQuery)
| CallDescribeObjects (pipeline : string) (object_ids : list string)
| StreamWrite (text : string).

Record Service : Type := mk_service {
  utcnow : datetime;
  get_service : string -> result unit;
  get_endpoint : result unit;
  QueryObjects : string -> RunQuery -> result (gmap string (list string));
  DescribeObjects :
    string -> list string -> result (gmap string (list ApiObject))
}.

Definition IO (A : Type) : Type := list event -> list event * result A.

#[export] Instance IO_ret : MRet IO := fun A a log => (log, Ok a).
#[export] Instance IO_bind : MBind IO := fun A B f m log =>
  match m log with
  | (log', Ok a) => f a log'
  | (log', Raise e) => (log', Raise e)
  end.

(** A pure computation that may raise, run inside [IO]. *)
Definition lift {A} (r : result A) : IO A := fun log => (log, r).

(** Perform one effect whose outcome is [r]. *)
Definition perform {A} (ev : event) (r : result A) : IO A :=
  fun log => (log ++ [ev], r).

(** ** [ListRunsFormatter] *)

Module ListRunsFormatter.

(** [TITLE_ROW_FORMAT_STRING % (a, b, c)] *)
Definition TITLE_ROW_FORMAT_STRING (a b c : option string) : string :=
  "       " +:+ fmt_ljust 50 50 (str_of_value a)
  +:+ "  " +:+ fmt_ljust 19 19 (str_of_value b)
  +:+ "  " +:+ fmt_ljust 23 23 (str_of_value c).

(** [FIRST_ROW_FORMAT_STRING % (n, a, b, c)] *)
Definition FIRST_ROW_FORMAT_STRING (n : Z) (a b c : option string) : string :=
  fmt_rjust_d 4 n +:+ ".  " +:+ fmt_ljust 50 50 (str_of_value a)
  +:+ "  " +:+ fmt_ljust 19 19 (str_of_value b)
  +:+ "  " +:+ fmt_ljust 23 23 (str_of_value c).

(** [SECOND_ROW_FORMAT_STRING % (a, b, c)] *)
Definition SECOND_ROW_FORMAT_STRING (a b c : option string) : string :=
  "       " +:+ fmt_ljust 50 50 (str_of_value a)
  +:+ "  " +:+ fmt_ljust 19 19 (str_of_value b)
  +:+ "  " +:+ fmt_ljust 19 19 (str_of_value c).

Definition stream_write (text : string) : IO unit :=
  perform (StreamWrite text) (Ok tt).

Definition _print_headers : IO unit :=
  _ ← stream_write
        (TITLE_ROW_FORMAT_STRING (Some "Name") (Some "Scheduled Start")
                                 (Some "Status"));
  _ ← stream_write (String "010" "");
  let second_row :=
    SECOND_ROW_FORMAT_STRING (Some "ID") (Some "Started") (Some "Ended") in
  _ ← stream_write second_row;
  _ ← stream_write (String "010" "");
  _ ← stream_write (repeat_char "-" (String.length second_row));
  stream_write (String "010" "").

(** The two lines [_print_row] builds before it writes anything. *)
Definition row_lines (index : Z) (obj : Record_) : result (string * string) :=
  logical_name ← dict_getitem obj "@componentParent";
  object_id ← dict_getitem obj "@id";
  let scheduled_start_date := dict_get obj "@scheduledStartTime" (Some "") in
  let status := dict_get obj "@status" (Some "") in
  let start_date := dict_get obj "@actualStartTime" (Some "") in
  let end_date := dict_get obj "@actualEndTime" (Some "") in
  let first_row :=
    FIRST_ROW_FORMAT_STRING (index + 1) logical_name scheduled_start_date
                            status in
  let second_row := SECOND_ROW_FORMAT_STRING object_id start_date end_date in
  Ok (first_row, second_row).

Definition _print_row (index : Z) (obj : Record_) : IO unit :=
  '(first_row, second_row) ← lift (row_lines index obj);
  _ ← stream_write first_row;
  _ ← stream_write (String "010" "");
  _ ← stream_write second_row;
  stream_write (String "010" (String "010" "")).

(** [for i, obj in enumerate(objects): self._print_row(i, obj)], from
    index [i]. *)
Fixpoint print_rows (i : Z) (objects : list Record_) : IO unit :=
  match objects with
  | [] => mret tt
  | obj :: rest => _ ← _print_row i obj; print_rows (i + 1) rest
  end.

Definition display_objects_to_user (objects : list Record_) : IO unit :=
  _ ← _print_headers; print_rows 0 objects.

End ListRunsFormatter.

(** ** [ListRunsCommand] *)

Module ListRunsCommand.

(** [parsed_args] as the argument parser hands it over: every option is
    a string or [None]. *)
Record CliArgs : Type := mk_cli_args {
  cli_pipeline_id : string;
  cli_status : option string;
  cli_start_interval : option string;
  cli_schedule_interval : option string
}.

Definition VALID_STATUS : list string :=
  ["waiting"; "pending"; "cancelled"; "running"; "finished"; "failed";
   "waiting_for_runner"; "waiting_on_dependencies"].

Fixpoint _validate_status_choices (statuses : list string) : result unit :=
  match statuses with
  | [] => Ok tt
  | status :: rest =>
      if str_in status VALID_STATUS then _validate_status_choices rest
      else Raise (ValueError ("Invalid status: " +:+ status
                              +:+ ", must be one of: "
                              +:+ join ", " VALID_STATUS))
  end.

(** [[arg.strip() for arg in s.split(',')]] *)
Definition split_csv (s : string) : list string :=
  map strip (split "," s).

(** [_parse_type_args] overwrites the three options of [parsed_args]
    with their parsed form; the updated object is the result. *)
Definition _parse_type_args (args : CliArgs) : result ParsedArgs :=
  let start := split_csv <$> cli_start_interval args in
  let schedule := split_csv <$> cli_schedule_interval args in
  statuses ←
    match cli_status args with
    | Some s =>
        let parsed := split_csv s in
        _ ← _validate_status_choices parsed; Ok (Some parsed)
    | None => Ok None
    end;
  Ok (mk_parsed_args (cli_pipeline_id args) statuses start schedule).

Definition _set_session_objects (svc : Service) : IO unit :=
  _ ← perform (GetService "datapipeline") (get_service svc "datapipeline");
  perform GetEndpoint (get_endpoint svc).

Definition _query_objects (svc : Service) (pipeline : string)
    (query : RunQuery) : IO (list string) :=
  parsed ← perform (CallQueryObjects pipeline "INSTANCE" query)
                   (QueryObjects svc pipeline query);
  lift (dict_getitem parsed "ids").

Definition _describe_objects (svc : Service) (pipeline : string)
    (object_ids : list string) : IO (gmap string (list ApiObject)) :=
  perform (CallDescribeObjects pipeline object_ids)
          (DescribeObjects svc pipeline object_ids).

(** [lambda x: (x.get('@scheduledStartTime'), x.get('name'))] *)
Definition sort_key (x : Record_) : option string * option string :=
  (dict_get x "@scheduledStartTime" None, dict_get x "name" None).

Definition _list_runs (svc : Service) (parsed_args : ParsedArgs) : IO unit :=
  query ← lift (build_query (mk_builder (utcnow svc)) parsed_args);
  object_ids ← _query_objects svc (pipeline_id parsed_args) query;
  described ← _describe_objects svc (pipeline_id parsed_args) object_ids;
  objects ← lift (dict_getitem described "pipelineObjects");
  converted ← lift (convert_described_objects objects (Some sort_key));
  ListRunsFormatter.display_objects_to_user converted.

Definition _run_main (svc : Service) (args : CliArgs) : IO unit :=
  _ ← _set_session_objects svc;
  parsed_args ← lift (_parse_type_args args);
  _list_runs svc parsed_args.

End ListRunsCommand.

(** ** [translator]: the definition document

    [translate_definition] and [PipelineDefinitionArgument.add_to_params]
    hand their argument to [translator.api_to_definition] and
    [translator.definition_to_api].  The module [translator] is not among
    the sources; its functions are modelled from the specification. *)

Module Translator.

(** The error kinds of the translation. *)
Inductive error : Type :=
| MalformedFieldError
| UnsupportedValueTypeError
| MissingRequiredKeyError.

Inductive outcome (A : Type) : Type :=
| Done (a : A)
| Fail (e : error).
Arguments Done {A} a.
Arguments Fail {A} e.

#[global] Instance outcome_ret : MRet outcome := @Done.
#[global] Instance outcome_bind : MBind outcome := fun A B f r =>
  match r with
  | Done a => f a
  | Fail e => Fail e
  end.

(** A definition value: a plain string, a reference [{"ref": id}], or a
    sequence of values. *)
Inductive value : Type :=
| Scalar (s : string)
| Reference (object_id : string)
| Sequence (items : list value).

(** A definition object: a mapping from key to value, kept as the list of
    its entries in key iteration order, each key once. *)
Abbreviation DefinitionObject := (list (string * value)).

Record DefinitionDocument : Type := mk_document {
  objects : list DefinitionObject
}.

(** Modelled from the spec: [FieldCodec.to_definition_entry] of the
    translator module, which is not part of the sources at hand.  "If
    refValue present, value = {ref: refValue}; else value = stringValue
    (fails with MalformedFieldError if neither present)". *)
Definition to_definition_entry (f : ApiField) : outcome (string * value) :=
  match refValue f, stringValue f with
  | Some r, _ => Done (key f, Reference r)
  | None, Some s => Done (key f, Scalar s)
  | None, None => Fail MalformedFieldError
  end.

(** Modelled from the spec: [FieldCodec.to_api_field] of the translator
    module.  "If value is a reference mapping, emit {key, refValue}; if
    value is a string, emit {key, stringValue}; any other value type fails
    with UnsupportedValueTypeError". *)
Definition to_api_field (k : string) (v : value) : outcome ApiField :=
  match v with
  | Reference r => Done (mk_field k None (Some r))
  | Scalar s => Done (mk_field k (Some s) None)
  | Sequence _ => Fail UnsupportedValueTypeError
  end.

(** Modelled from the spec: the accumulation step of [api_to_definition].
    "When a key repeats within one object, the value for that key becomes
    an ordered sequence accumulating every occurrence"; a new key is
    entered after the ones already there. *)
Fixpoint add_entry (k : string) (v : value) (obj : DefinitionObject)
  : DefinitionObject :=
  match obj with
  | [] => [(k, v)]
  | (k', old) :: rest =>
      if String.eqb k k' then
        (k', match old with
             | Sequence items => Sequence (items ++ [v])
             | _ => Sequence [old; v]
             end) :: rest
      else (k', old) :: add_entry k v rest
  end.

(** Modelled from the spec: the loop of [api_to_definition] over the
    fields of one object, "for each field call to_definition_entry", in
    field order. *)
Fixpoint add_fields (fs : list ApiField) (obj : DefinitionObject)
  : outcome DefinitionObject :=
  match fs with
  | [] => Done obj
  | f :: rest =>
      '(k, v) ← to_definition_entry f;
      add_fields rest (add_entry k v obj)
  end.

(** [f] on every element in order, stopping at the first failure. *)
Fixpoint mapM {A B} (f : A -> outcome B) (l : list A) : outcome (list B) :=
  match l with
  | [] => Done []
  | x :: rest => y ← f x; ys ← mapM f rest; Done (y :: ys)
  end.

(** Modelled from the spec: [api_to_definition] of the translator module
    on one object.  "For each ApiObject, start a DefinitionObject with id
    and name set from the object's identifier/name; for each field call
    to_definition_entry [..]. Preserves object order." *)
Definition object_to_definition (o : ApiObject) : outcome DefinitionObject :=
  add_fields (fields o) [("id", Scalar (id o)); ("name", Scalar (name o))].

(** Modelled from the spec: [api_to_definition] on the whole list; the
    document holds the objects in their order. *)
Definition api_to_definition (api_objects : list ApiObject)
  : outcome DefinitionDocument :=
  objs ← mapM object_to_definition api_objects;
  Done (mk_document objs).

(** The value of the mapping [obj] under [k]. *)
Fixpoint entry_lookup (k : string) (obj : DefinitionObject) : option value :=
  match obj with
  | [] => None
  | (k', v) :: rest => if String.eqb k k' then Some v else entry_lookup k rest
  end.

(** Modelled from the spec: the extraction of [id] and [name] in
    [definition_to_api] of the translator module, "extract id/name (fails
    with MissingRequiredKeyError if absent)".  The two are the strings
    of an ApiObject; a value that is not a string is of an unsupported
    type. *)
Definition required_string (k : string) (obj : DefinitionObject)
  : outcome string :=
  match entry_lookup k obj with
  | None => Fail MissingRequiredKeyError
  | Some (Scalar s) => Done s
  | Some _ => Fail UnsupportedValueTypeError
  end.

(** Modelled from the spec: the fields [definition_to_api] of the
    translator module emits for one key, "if value is a sequence, emit
    one ApiField per element via to_api_field(key, element); otherwise
    emit a single ApiField". *)
Definition entry_to_fields (entry : string * value) : outcome (list ApiField) :=
  match snd entry with
  | Sequence items => mapM (to_api_field (fst entry)) items
  | v => f ← to_api_field (fst entry) v; Done [f]
  end.

(** The reserved keys of a definition object. *)
Definition is_reserved (k : string) : bool :=
  (String.eqb k "id" || String.eqb k "name")%bool.

(** Modelled from the spec: [definition_to_api] of the translator module
    on one object.  "For each DefinitionObject, extract id/name (fails with
    MissingRequiredKeyError if absent), and for every remaining key [..]
    Field emission order matches key iteration order of the input
    mapping, then element order within sequences." *)
Definition definition_to_object (obj : DefinitionObject) : outcome ApiObject :=
  element_id ← required_string "id" obj;
  element_name ← required_string "name" obj;
  groups ← mapM entry_to_fields
                (filter (fun entry => is_reserved (fst entry) = false) obj);
  Done (mk_object element_id element_name (concat groups)).

(** Modelled from the spec: [definition_to_api] on the whole document,
    object by object in order. *)
Definition definition_to_api (document : DefinitionDocument)
  : outcome (list ApiObject) :=
  mapM definition_to_object (objects document).

(** Equality of two API object lists up to the order of the fields
    within each object. *)
Definition same_object (a b : ApiObject) : Prop :=
  id a = id b /\ name a = name b /\ fields a ≡ₚ fields b.

Definition same_objects (X Y : list ApiObject) : Prop :=
  Forall2 same_object X Y.

(** [definition_to_api(api_to_definition(X))] *)
Definition round_trip (X : list ApiObject) : outcome (list ApiObject) :=
  document ← api_to_definition X; definition_to_api document.

End Translator.

(** ** The customizations around the translator *)

(** [translate_definition]: of the response [parsed] only the two keys
    the function touches are kept.  The argument is what
    [parsed.pop('pipelineObjects', None)] returns and the result is what
    [parsed['objects']] is set to, [None] when it is left alone. *)
Definition translate_definition (pipelineObjects : option (list ApiObject))
  : Translator.outcome (option (list Translator.DefinitionObject)) :=
  match pipelineObjects with
  | None => Translator.Done None
  | Some api_objects =>
      definition ← Translator.api_to_definition api_objects;
      Translator.Done (Some (Translator.objects definition))
  end.

(** [PipelineDefinitionArgument.add_to_params]: [value] is given as the
    document that [json.loads] reads from the argument, and the result
    is what [parameters['pipeline_objects']] is set to, [None] when it is
    left alone. *)
Definition add_to_params (value : option Translator.DefinitionDocument)
  : Translator.outcome (option (list ApiObject)) :=
  match value with
  | None => Translator.Done None
  | Some parsed =>
      api_objects ← Translator.definition_to_api parsed;
      Translator.Done (Some api_objects)
  end.

(** ** [document_translation] *)

Module HelpDoc.

(** [help_command.doc] is kept as the stack of its writes, the latest
    first: [doc.write(s)] puts [s] on top, and [doc.pop_write()] takes the
    top off and returns it, raising IndexError when nothing is left. *)
Abbreviation Document := (list string).

(** ['======\nOutput\n======'] *)
Definition OUTPUT_SECTION : string :=
  "======" +:+ String "010" "Output" +:+ String "010" "======".

(** The text written below the heading. *)
Definition OUTPUT_TEXT : string :=
  String "010" "The output of this command is the pipeline definition, which"
  +:+ " is documented in the "
  +:+ "`Pipeline Definition File Syntax "
  +:+ "<http://docs.aws.amazon.com/datapipeline/latest/DeveloperGuide/"
  +:+ "dp-writing-pipeline-definition.html>`__".

(** What [document_translation] leaves: the document, or the exception
    of this module with its message. *)
Inductive doc_result : Type :=
| Written (doc : Document)
| DocSectionNotFoundError (msg : string).

(** ['Could not find the "output" section for the command: %s'
    % help_command] *)
Definition not_found_message (help_command : string) : string :=
  "Could not find the " +:+ String "034" "output" +:+ String "034" ""
  +:+ " section for the command: " +:+ help_command.

(** The [while] loop: writes are popped until the one popped is the
    heading; [None] when [pop_write] ran out of writes. *)
Fixpoint pop_to_output (doc : Document) : option Document :=
  match doc with
  | [] => None
  | current :: rest =>
      if String.eqb current OUTPUT_SECTION then Some rest
      else pop_to_output rest
  end.

(** [help_command] is given by the text [%s] shows for it. *)
Definition document_translation (help_command : string) (doc : Document)
  : doc_result :=
  match pop_to_output doc with
  | None => DocSectionNotFoundError (not_found_message help_command)
  | Some rest => Written (OUTPUT_TEXT :: OUTPUT_SECTION :: rest)
  end.

End HelpDoc.

(** ** [add_pipeline_definition] *)

Module ArgumentTable.

(** [HELP_TEXT] *)
Definition HELP_TEXT : string :=
  "The JSON pipeline definition.  If the pipeline definition"
  +:+ String "010" "is in a file you can use the file://<filename> syntax to"
  +:+ String "010" "specify a filename."
  +:+ String "010" "".

(** An entry of the argument table: an argument of the service model, or
    the [PipelineDefinitionArgument] of this module with the arguments of
    its constructor. *)
Inductive Argument : Type :=
| ServiceArgument (cli_name : string)
| PipelineDefinitionArgument (arg_name : string) (required : bool)
                             (help_text : string).

(** The table is changed in place, so it is returned also when [del]
    raises. *)
Definition add_pipeline_definition (argument_table : gmap string Argument)
  : gmap string Argument * result unit :=
  let argument_table :=
    <["pipeline-definition" :=
        PipelineDefinitionArgument "pipeline-definition" true HELP_TEXT]>
      argument_table in
  match argument_table !! "pipeline-objects" with
  | Some _ => (delete "pipeline-objects" argument_table, Ok tt)
  | None => (argument_table, Raise (KeyError "pipeline-objects"))
  end.

End ArgumentTable.

(** ** Vocabulary of the statements *)

(** A BETWEEN selector on [field] with the two bounds. *)
Definition between (field lo hi : string) : RunSelector :=
  mk_selector field (mk_operator "BETWEEN" [lo; hi]).

(** The selector a present interval stands for: its first two elements. *)
Definition interval_selectors (field : string) (interval : option (list string))
  : list RunSelector :=
  match interval with
  | Some (lo :: hi :: _) => [between field lo hi]
  | _ => []
  end.

(** The selector a present status list stands for. *)
Definition status_selectors (statuses : option (list string))
  : list RunSelector :=
  match statuses with
  | Some values => [mk_selector "@status" (mk_operator "EQ" values)]
  | None => []
  end.

(** A present interval has both of its bounds. *)
Definition has_bounds (interval : option (list string)) : Prop :=
  match interval with
  | Some l => (2 <= length l)%nat
  | None => True
  end.

(** [s] reads YYYY-MM-DDTHH:MM:SS: nineteen characters, decimal digits
    around the separators. *)
Definition is_digit (a : ascii) : bool :=
  (Nat.leb 48 (nat_of_ascii a) && Nat.leb (nat_of_ascii a) 57)%bool.

Definition iso_shaped (s : string) : bool :=
  match list_ascii_of_string s with
  | [y1; y2; y3; y4; s1; m1; m2; s2; d1; d2; s3; h1; h2; s4; n1; n2; s5; c1; c2] =>
      forallb is_digit [y1; y2; y3; y4; m1; m2; d1; d2; h1; h2; n1; n2; c1; c2]
      && bool_decide ([s1; s2; s3; s4; s5] = ["-"; "-"; "T"; ":"; ":"]%char)
  | _ => false
  end.

(** The effects of [_set_session_objects]: neither a call to the service
    nor a write to the stream. *)
Definition session_event (ev : event) : Prop :=
  ev = GetService "datapipeline" \/ ev = GetEndpoint.

(** The message of the error raised for the token [tok]. *)
Definition invalid_status_message (tok : string) : string :=
  "Invalid status: " +:+ tok +:+ ", must be one of: waiting, pending, "
  +:+ "cancelled, running, finished, failed, waiting_for_runner, "
  +:+ "waiting_on_dependencies".

(** The last field of [fs] whose key is [k]: the one whose value the
    record keeps. *)
Definition last_field (k : string) (fs : list ApiField) : option ApiField :=
  find (fun f => String.eqb (key f) k) (rev fs).

(** What the record of [obj] holds under [k] according to the
    construction "start with @id and name, then every field in order". *)
Definition record_entry (obj : ApiObject) (k : string) : option (option string) :=
  match last_field k (fields obj) with
  | Some f =>
      Some (match stringValue f with
            | Some s => Some s
            | None => refValue f
            end)
  | None =>
      if String.eqb k "name" then Some (Some (name obj))
      else if String.eqb k "@id" then Some (Some (id obj))
      else None
  end.

(** The record has a string under both keys of the sort. *)
Definition has_sort_key (x : Record_) : Prop :=
  exists s n, x !! "@scheduledStartTime" = Some (Some s)
              /\ x !! "name" = Some (Some n).

(** A key made of two strings. *)
Definition string_key (k : option string * option string) : Prop :=
  exists s n, k = (Some s, Some n).

(** [a < b] on keys, where it returns. *)
Definition key_ltb (a b : option string * option string) : bool :=
  match py_lt a b with
  | Ok c => c
  | Raise _ => false
  end.

(** The order of pairs of strings: by the first, then by the second. *)
Definition pair_lt (a b : string * string) : Prop :=
  String_as_OT.lt (fst a) (fst b)
  \/ (fst a = fst b /\ String_as_OT.lt (snd a) (snd b)).

(** The end of [_ord2ymd]: month and day of the [n]-th day (from 0) of a
    year that is a leap year or not. *)
Definition month_day (n : Z) (leapyear : bool) : Z * Z :=
  let m := Z.shiftr (n + 50) 5 in
  let preceding :=
    _DAYS_BEFORE_MONTH m + (if ((2 <? m) && leapyear)%bool then 1 else 0) in
  if n <? preceding then
    let m' := m - 1 in
    let preceding' :=
      preceding
      - (_DAYS_IN_MONTH m' + (if ((m' =? 2) && leapyear)%bool then 1 else 0)) in
    (m', n - preceding' + 1)
  else (m, n - preceding + 1).

(** [month_day n leap] is a day of a month, the one [n] days after the
    first of January. *)
Definition month_day_ok (leap : bool) (n : Z) : bool :=
  let '(m, d) := month_day n leap in
  (1 <=? m) && (m <=? 12) && (1 <=? d)
  && (d <=? (if ((m =? 2) && leap)%bool then 29 else _DAYS_IN_MONTH m))
  && (_DAYS_BEFORE_MONTH m + (if ((2 <? m) && leap)%bool then 1 else 0) + d
      =? n + 1).

(** The date [ymd] is the day of ordinal [n]. *)
Definition date_ok (n : Z) (ymd : Z * Z * Z) : Prop :=
  let '(y, m, d) := ymd in
  _ymd2ord y m d = n /\ 1 <= y /\ 1 <= m <= 12 /\ 1 <= d <= _days_in_month y m.

Ltac eval_month_tables :=
  repeat match goal with
    | |- context [_DAYS_BEFORE_MONTH ?m] =>
        let v := eval vm_compute in (_DAYS_BEFORE_MONTH m) in
        change (_DAYS_BEFORE_MONTH m) with v
    | |- context [_DAYS_IN_MONTH ?m] =>
        let v := eval vm_compute in (_DAYS_IN_MONTH m) in
        change (_DAYS_IN_MONTH m) with v
    | |- context [Z.ltb ?a ?b] =>
        let v := eval vm_compute in (Z.ltb a b) in change (Z.ltb a b) with v
    | |- context [Z.eqb ?a ?b] =>
        let v := eval vm_compute in (Z.eqb a b) in change (Z.eqb a b) with v
    end;
  cbn [negb orb andb].

(** What a row shows for the key [k]: the value as [%s] prints it, and
    the empty string where the record has no such key. *)
Definition shown (obj : Record_) (k : string) : string :=
  match obj !! k with
  | Some v => str_of_value v
  | None => ""
  end.

(** [s] cut or padded with spaces to exactly [w] characters. *)
Definition cut_pad (w : nat) (s : string) : string :=
  take_str w (s +:+ repeat_char " " w).

(** A line made of [lead] and three columns of the given widths, two
    spaces apart. *)
Definition three_columns (lead : string) (w1 w2 w3 : nat) (line : string)
  : Prop :=
  exists c1 c2 c3,
    line = lead +:+ c1 +:+ "  " +:+ c2 +:+ "  " +:+ c3
    /\ String.length c1 = w1 /\ String.length c2 = w2
    /\ String.length c3 = w3.

(** The record lacks one of the keys [_print_row] subscripts. *)
Definition lacks_required (obj : Record_) : Prop :=
  obj !! "@componentParent" = None \/ obj !! "@id" = None.

(** The fields of [o] each carry exactly one value. *)
Definition well_formed_object (o : ApiObject) : Prop :=
  Forall well_formed_field (fields o).

(** No field of [o] is named like a reserved key of the definition. *)
Definition unreserved_object (o : ApiObject) : Prop :=
  Forall (fun f => Translator.is_reserved (key f) = false) (fields o).

Ltac one_value :=
  unfold well_formed_field; simpl;
  first [left; split; [eexists; reflexivity|reflexivity]
        |right; split; [reflexivity|eexists; reflexivity]].

(** ** Vocabulary of the command-level statements *)

(** A BETWEEN selector with two bounds on one of the two time fields the
    builder filters on. *)
Definition time_selector (sel : RunSelector) : Prop :=
  type (operator sel) = "BETWEEN"
  /\ length (values (operator sel)) = 2%nat
  /\ (fieldName sel = "@actualStartTime"
      \/ fieldName sel = "@scheduleStartTime").

(** How often [c] occurs in [s]. *)
Fixpoint count_char (c : ascii) (s : string) : nat :=
  match s with
  | EmptyString => 0
  | String a rest => (if Ascii.eqb a c then 1 else 0) + count_char c rest
  end.

(** An interval option given on the command line holds a comma. *)
Definition has_comma (interval : option string) : Prop :=
  match interval with
  | Some s => (1 <= count_char "," s)%nat
  | None => True
  end.

(** Every token of a status option given on the command line is a valid
    status. *)
Definition status_accepted (csv : option string) : Prop :=
  match csv with
  | Some s => Forall (fun tok => tok ∈ ListRunsCommand.VALID_STATUS)
                     (ListRunsCommand.split_csv s)
  | None => True
  end.

Ltac all_between :=
  repeat (apply List.Forall_cons;
          [repeat split; first [reflexivity | now left | now right]|]);
  apply List.Forall_nil.

(** The first component of the sort key of [_list_runs]. *)
Definition scheduled (x : Record_) : option string :=
  dict_get x "@scheduledStartTime" None.

(** A key whose scheduled start is [None] and whose name is a string. *)
Definition name_key (k : option string * option string) : Prop :=
  exists n, k = (None, Some n).

(** The record has no scheduled start, and a string under [name]. *)
Definition lacks_schedule (x : Record_) : Prop :=
  exists n, scheduled x = None /\ x !! "name" = Some (Some n).

(** The text a row shows for the key [k] of the object [obj]: the value
    of the last field of that key, the identifier for [@id] when no field
    has that key, and nothing otherwise. *)
Definition column_text (obj : ApiObject) (k : string) : string :=
  match last_field k (fields obj) with
  | Some f =>
      match stringValue f, refValue f with
      | Some s, _ => s
      | None, Some r => r
      | None, None => "None"
      end
  | None => if String.eqb k "@id" then id obj else ""
  end.

(** The keys of a list of fields, as a set. *)
Definition field_keys (fs : list ApiField) : gset string :=
  list_to_set (map key fs).

(** A write to the output stream. *)
Definition is_write (ev : event) : Prop :=
  match ev with
  | StreamWrite _ => True
  | _ => False
  end.

(** The writes of [_print_headers]. *)
Definition header_events : list event :=
  let second_row :=
    ListRunsFormatter.SECOND_ROW_FORMAT_STRING
      (Some "ID") (Some "Started") (Some "Ended") in
  [StreamWrite (ListRunsFormatter.TITLE_ROW_FORMAT_STRING
                  (Some "Name") (Some "Scheduled Start") (Some "Status"));
   StreamWrite (String "010" "");
   StreamWrite second_row;
   StreamWrite (String "010" "");
   StreamWrite (repeat_char "-" 99);
   StreamWrite (String "010" "")].

(** The writes of the row at position [i] (from 0). *)
Definition row_events (i : nat) (obj : Record_) : list event :=
  match ListRunsFormatter.row_lines (Z.of_nat i) obj with
  | Ok (first_row, second_row) =>
      [StreamWrite first_row; StreamWrite (String "010" "");
       StreamWrite second_row;
       StreamWrite (String "010" (String "010" ""))]
  | Raise _ => []
  end.

Fixpoint rows_from (i : nat) (objects : list Record_) : list event :=
  match objects with
  | [] => []
  | obj :: rest => row_events i obj ++ rows_from (S i) rest
  end.

Definition rows_events (objects : list Record_) : list event :=
  rows_from 0 objects.

(** The four effects of a listing that come before its output, in their
    order. *)
Definition call_events (pipeline : string) (query : RunQuery)
    (object_ids : list string) : list event :=
  [GetService "datapipeline"; GetEndpoint;
   CallQueryObjects pipeline "INSTANCE" query;
   CallDescribeObjects pipeline object_ids].

(** ** Calendar arithmetic *)

Section Calendar.

Lemma month_day_table :
  forallb (fun n => month_day_ok true n && month_day_ok false n)
          (map Z.of_nat (seq 0 365)) = true.
Proof. vm_compute. reflexivity. Qed.

Lemma month_day_spec (leap : bool) (n : Z) :
  0 <= n < 365 -> month_day_ok leap n = true.
Proof.
  intros Hn. pose proof month_day_table as Htable.
  rewrite forallb_forall in Htable.
  specialize (Htable n). rewrite andb_true_iff in Htable.
  destruct Htable as [Ht Hf].
  - apply in_map_iff. exists (Z.to_nat n). split; [lia|].
    apply in_seq. lia.
  - now destruct leap.
Qed.

Lemma ord2ymd_eq (n : Z) :
  let n0 := n - 1 in
  let a := n0 / 146097 in
  let r1 := n0 mod 146097 in
  let b := r1 / 36524 in
  let r2 := r1 mod 36524 in
  let c := r2 / 1461 in
  let r3 := r2 mod 1461 in
  let d := r3 / 365 in
  let e := r3 mod 365 in
  let y := a * 400 + 1 + b * 100 + c * 4 + d in
  _ord2ymd n
  = if ((d =? 4) || (b =? 4))%bool then (y - 1, 12, 31)
    else let '(m, dd) :=
           month_day e ((d =? 3) && (negb (c =? 24) || (b =? 3)))%bool in
         (y, m, dd).
Proof.
  cbv zeta. unfold _ord2ymd, month_day, _DI400Y, _DI100Y, _DI4Y. cbv zeta.
  repeat match goal with
         | |- context [if ?c then _ else _] => destruct c
         end; reflexivity.
Qed.

Lemma days_before_year_decomp (a b c d : Z) :
  0 <= b <= 3 -> 0 <= c <= 24 -> 0 <= d <= 3 ->
  _days_before_year (a * 400 + 1 + b * 100 + c * 4 + d)
  = 146097 * a + 36524 * b + 1461 * c + 365 * d.
Proof.
  intros. unfold _days_before_year. cbv zeta. Z.div_mod_to_equations. lia.
Qed.

Lemma is_leap_decomp (a b c d : Z) :
  0 <= b <= 3 -> 0 <= c <= 24 -> 0 <= d <= 3 ->
  _is_leap (a * 400 + 1 + b * 100 + c * 4 + d)
  = ((d =? 3) && (negb (c =? 24) || (b =? 3)))%bool.
Proof.
  intros. unfold _is_leap.
  repeat match goal with
         | |- context [?x =? ?y] => destruct (Z.eqb_spec x y)
         end;
    simpl; try reflexivity; exfalso; Z.div_mod_to_equations; lia.
Qed.

Lemma ord2ymd_correct (n : Z) : 1 <= n -> date_ok n (_ord2ymd n).
Proof.
  intros Hn. rewrite ord2ymd_eq. cbv zeta.
  pose proof (Z.div_mod (n - 1) 146097 ltac:(lia)) as E1.
  pose proof (Z.mod_pos_bound (n - 1) 146097 ltac:(lia)) as B1.
  set (a := (n - 1) / 146097) in *. set (r1 := (n - 1) mod 146097) in *.
  pose proof (Z.div_mod r1 36524 ltac:(lia)) as E2.
  pose proof (Z.mod_pos_bound r1 36524 ltac:(lia)) as B2.
  set (b := r1 / 36524) in *. set (r2 := r1 mod 36524) in *.
  pose proof (Z.div_mod r2 1461 ltac:(lia)) as E3.
  pose proof (Z.mod_pos_bound r2 1461 ltac:(lia)) as B3.
  set (c := r2 / 1461) in *. set (r3 := r2 mod 1461) in *.
  pose proof (Z.div_mod r3 365 ltac:(lia)) as E4.
  pose proof (Z.mod_pos_bound r3 365 ltac:(lia)) as B4.
  set (d := r3 / 365) in *. set (e := r3 mod 365) in *.
  assert (Ha : 0 <= a) by lia.
  assert (Hb : 0 <= b <= 4) by lia.
  assert (Hc : 0 <= c <= 24) by lia.
  assert (Hd : 0 <= d <= 4) by lia.
  clearbody a r1 b r2 c r3 d e.
  destruct (Z.eqb_spec d 4) as [Hd4|Hd4]; [|destruct (Z.eqb_spec b 4) as [Hb4|Hb4]];
    cbn [orb].
  - (* last day of a leap year inside a century *)
    assert (Hc23 : c <= 23) by lia.
    assert (Hb3 : b <= 3) by lia.
    replace (a * 400 + 1 + b * 100 + c * 4 + d - 1)
      with (a * 400 + 1 + b * 100 + c * 4 + 3) by lia.
    unfold date_ok, _ymd2ord, _days_before_month, _days_in_month.
    rewrite days_before_year_decomp, is_leap_decomp by lia.
    replace (c =? 24) with false by (symmetry; apply Z.eqb_neq; lia).
    change (_DAYS_BEFORE_MONTH 12) with 334.
    change (_DAYS_IN_MONTH 12) with 31.
    change (2 <? 12) with true. change (12 =? 2) with false.
    change (3 =? 3) with true. cbn [negb orb andb]. lia.
  - (* last day of a 400-year cycle *)
    replace (a * 400 + 1 + b * 100 + c * 4 + d - 1)
      with (a * 400 + 1 + 3 * 100 + 24 * 4 + 3) by lia.
    unfold date_ok, _ymd2ord, _days_before_month, _days_in_month.
    rewrite days_before_year_decomp, is_leap_decomp by lia.
    change (_DAYS_BEFORE_MONTH 12) with 334.
    change (_DAYS_IN_MONTH 12) with 31.
    change (2 <? 12) with true. change (12 =? 2) with false.
    change (3 =? 3) with true. change (24 =? 24) with true.
    cbn [negb orb andb]. lia.
  - pose proof (month_day_spec ((d =? 3) && (negb (c =? 24) || (b =? 3)))%bool e B4)
      as Hmd.
    unfold month_day_ok in Hmd.
    destruct (month_day e ((d =? 3) && (negb (c =? 24) || (b =? 3)))%bool)
      as [m dd].
    rewrite !andb_true_iff in Hmd.
    destruct Hmd as [[[[Hm1 Hm2] Hd1] Hd2] Hsum].
    unfold date_ok, _ymd2ord, _days_before_month, _days_in_month.
    rewrite days_before_year_decomp, is_leap_decomp by lia.
    apply Z.leb_le in Hm1, Hm2, Hd1, Hd2. apply Z.eqb_eq in Hsum.
    lia.
Qed.

Lemma month_cases (m : Z) :
  1 <= m <= 12 ->
  m = 1 \/ m = 2 \/ m = 3 \/ m = 4 \/ m = 5 \/ m = 6 \/ m = 7 \/ m = 8
  \/ m = 9 \/ m = 10 \/ m = 11 \/ m = 12.
Proof. lia. Qed.

Lemma day_of_year_bounds (y m d : Z) :
  1 <= m <= 12 -> 1 <= d <= _days_in_month y m ->
  1 <= _days_before_month y m + d <= 365 + (if _is_leap y then 1 else 0).
Proof.
  intros Hm. unfold _days_before_month, _days_in_month.
  pose proof (month_cases m Hm) as Hcase.
  destruct (_is_leap y);
    repeat (destruct Hcase as [Hcase|Hcase];
            [subst m; eval_month_tables; lia|]);
    subst m; eval_month_tables; lia.
Qed.

Lemma days_before_year_mono (y y' : Z) :
  y <= y' -> _days_before_year y <= _days_before_year y'.
Proof.
  intros. unfold _days_before_year. cbv zeta. Z.div_mod_to_equations. lia.
Qed.

Lemma toordinal_bounds (t : datetime) :
  valid t -> 1 <= toordinal t <= _MAXORDINAL.
Proof.
  intros (Hy & Hm & Hd & _). unfold toordinal, _ymd2ord.
  pose proof (day_of_year_bounds (year t) (month t) (day t) Hm Hd) as Hdoy.
  rewrite <- Z.add_assoc.
  destruct (Z.eq_dec (year t) 9999) as [Heq|Hne].
  - rewrite Heq in *. change (_is_leap 9999) with false in Hdoy.
    change (_days_before_year 9999) with 3651694. unfold _MAXORDINAL. lia.
  - pose proof (days_before_year_mono 1 (year t) ltac:(lia)) as Hlo.
    pose proof (days_before_year_mono (year t) 9998 ltac:(lia)) as Hhi.
    change (_days_before_year 1) with 0 in Hlo.
    change (_days_before_year 9998) with 3651329 in Hhi.
    unfold _MAXORDINAL. destruct (_is_leap (year t)); lia.
Qed.

Lemma ordinal_year_bound (n y m d : Z) :
  date_ok n (y, m, d) -> n <= _MAXORDINAL -> y <= 9999.
Proof.
  intros (Hord & Hy & Hm & Hd) Hn. unfold _ymd2ord in Hord.
  pose proof (day_of_year_bounds y m d Hm Hd) as Hdoy.
  destruct (Z_le_gt_dec y 9999) as [|Hgt]; [assumption|exfalso].
  pose proof (days_before_year_mono 10000 y ltac:(lia)) as Hlo.
  change (_days_before_year 10000) with 3652059 in Hlo.
  unfold _MAXORDINAL in Hn. lia.
Qed.

Lemma time_of_day_split (h m s : Z) :
  0 <= h -> 0 <= m <= 59 -> 0 <= s <= 59 ->
  let seconds := h * 3600 + m * 60 + s in
  seconds / 3600 = h
  /\ (seconds mod 3600) / 60 = m
  /\ (seconds mod 3600) mod 60 = s.
Proof. intros. cbv zeta. Z.div_mod_to_equations. lia. Qed.

Lemma sub_days_spec (t : datetime) (n : Z) :
  valid t -> 0 <= n < toordinal t ->
  exists t',
    sub_days t n = Ok t'
    /\ valid t'
    /\ toordinal t' = toordinal t - n
    /\ hour t' = hour t /\ minute t' = minute t /\ second t' = second t.
Proof.
  intros Hv Hn. pose proof (toordinal_bounds t Hv) as Hord.
  destruct Hv as (Hy & Hm & Hd & Hh & Hmi & Hs).
  destruct (time_of_day_split (hour t) (minute t) (second t))
    as (Eh & Em & Es); try lia.
  unfold sub_days.
  replace ((0 <? toordinal t - n) && (toordinal t - n <=? _MAXORDINAL))%bool
    with true by (symmetry; apply andb_true_iff; split;
                  [apply Z.ltb_lt|apply Z.leb_le]; lia).
  pose proof (ord2ymd_correct (toordinal t - n) ltac:(lia)) as Hok.
  destruct (_ord2ymd (toordinal t - n)) as [[y m] d] eqn:Hymd.
  pose proof (ordinal_year_bound _ _ _ _ Hok ltac:(lia)) as Hy'.
  destruct Hok as (Hback & Hy1 & Hm' & Hd').
  eexists. split; [reflexivity|].
  unfold valid, toordinal; cbn [year month day hour minute second].
  rewrite Eh, Em, Es. repeat split; try lia; assumption.
Qed.

End Calendar.

(** ** The query builder *)

Section QueryBuilder.

Variable self : QueryArgBuilder.
Variable pipeline : string.
Variable statuses : option (list string).

Lemma build_status_spec (selectors : list RunSelector) :
  match statuses with
  | Some values => _build_status selectors values
  | None => selectors
  end = selectors ++ status_selectors statuses.
Proof.
  destruct statuses as [values|]; simpl.
  - reflexivity.
  - now rewrite app_nil_r.
Qed.

Lemma schedule_times_ok (start schedule : option (list string)) :
  has_bounds start -> has_bounds schedule ->
  _build_schedule_times [] (mk_parsed_args pipeline statuses start schedule)
  = Ok (interval_selectors "@actualStartTime" start
        ++ interval_selectors "@scheduleStartTime" schedule).
Proof.
  intros Hs Hc. unfold _build_schedule_times; simpl.
  destruct start as [[|a [|b l]]|]; simpl in Hs; try lia;
    destruct schedule as [[|c [|d l']]|]; simpl in Hc; try lia; reflexivity.
Qed.

Lemma schedule_times_short (start schedule : option (list string)) :
  ~ (has_bounds start /\ has_bounds schedule) ->
  _build_schedule_times [] (mk_parsed_args pipeline statuses start schedule)
  = Raise (IndexError "list index out of range").
Proof.
  intros Hn. unfold _build_schedule_times; simpl.
  destruct start as [[|a [|b l]]|]; try reflexivity;
    destruct schedule as [[|c [|d l']]|]; try reflexivity;
    exfalso; apply Hn; simpl; split; auto; lia.
Qed.

Lemma build_query_explicit (start schedule : option (list string)) :
  start <> None \/ schedule <> None ->
  build_query self (mk_parsed_args pipeline statuses start schedule)
  = (selectors ←
       _build_schedule_times []
         (mk_parsed_args pipeline statuses start schedule);
     Ok (mk_query (selectors ++ status_selectors statuses))).
Proof.
  intros Hp. unfold build_query; simpl.
  destruct start as [s|], schedule as [c|];
    try (destruct Hp; congruence);
    (match goal with
     | |- context [_build_schedule_times ?a ?b] =>
         destruct (_build_schedule_times a b) as [sel|e]
     end; simpl; [now rewrite build_status_spec | reflexivity]).
Qed.

Lemma build_query_unbounded (start schedule : option (list string)) :
  start <> None \/ schedule <> None ->
  ~ (has_bounds start /\ has_bounds schedule) ->
  build_query self (mk_parsed_args pipeline statuses start schedule)
  = Raise (IndexError "list index out of range").
Proof.
  intros Hp Hn. rewrite build_query_explicit by assumption.
  now rewrite schedule_times_short.
Qed.

End QueryBuilder.

(** *** The timestamp format *)

Lemma decimal_digit (n : Z) :
  is_digit (ascii_of_nat (48 + Z.to_nat (n mod 10))) = true.
Proof.
  assert (Hlt : (Z.to_nat (n mod 10) < 10)%nat).
  { pose proof (Z.mod_pos_bound n 10 ltac:(lia)). lia. }
  set (k := Z.to_nat (n mod 10)) in *.
  do 10 (destruct k as [|k]; [reflexivity|]). lia.
Qed.

Lemma strftime_iso_shaped (t : datetime) : iso_shaped (strftime_iso t) = true.
Proof.
  cbv [iso_shaped strftime_iso fmt_zero_d String.append
       list_ascii_of_string forallb].
  rewrite !decimal_digit. reflexivity.
Qed.

(** C2: with neither interval given, the query is one BETWEEN selector on
    [@actualStartTime] from four days before [now] to [now], both written
    YYYY-MM-DDTHH:MM:SS, followed only by the status selector if a status
    is given; four days before [now] is the datetime [start] whose day is
    the fourth before that of [now], at the same time of day (it exists
    from 0001-01-05 on).  For now = 2024-01-10T00:00:00 and no status
    the query is the single selector with 2024-01-06T00:00:00 and
    2024-01-10T00:00:00. *)
Theorem default_query_window :
  (forall (now : datetime) (pipeline : string)
          (statuses : option (list string)),
      valid now -> 4 < toordinal now ->
      exists start,
        sub_days now 4 = Ok start
        /\ valid start
        /\ toordinal start = toordinal now - 4
        /\ hour start = hour now /\ minute start = minute now
        /\ second start = second now
        /\ build_query (mk_builder now)
                       (mk_parsed_args pipeline statuses None None)
           = Ok (mk_query (between "@actualStartTime" (strftime_iso start)
                                   (strftime_iso now)
                           :: status_selectors statuses))
        /\ iso_shaped (strftime_iso start) = true
        /\ iso_shaped (strftime_iso now) = true)
  /\ (forall pipeline : string,
        build_query (mk_builder (mk_datetime 2024 1 10 0 0 0))
                    (mk_parsed_args pipeline None None None)
        = Ok (mk_query [between "@actualStartTime" "2024-01-06T00:00:00"
                                "2024-01-10T00:00:00"])).
Proof.
  split.
  - intros now pipeline statuses Hvalid Hord.
    destruct (sub_days_spec now 4 Hvalid ltac:(lia))
      as (start & Hsub & Hv & Ho & Hh & Hm & Hs).
    exists start. repeat (split; [assumption|]). split.
    + unfold build_query; simpl. rewrite Hsub; simpl.
      now rewrite build_status_spec.
    + split; apply strftime_iso_shaped.
  - intros pipeline. vm_compute. reflexivity.
Qed.

Lemma default_query_window_witness :
  exists start,
    sub_days (mk_datetime 2023 3 2 23 59 7) 4 = Ok start
    /\ valid start
    /\ toordinal start = toordinal (mk_datetime 2023 3 2 23 59 7) - 4
    /\ hour start = 23 /\ minute start = 59 /\ second start = 7
    /\ build_query (mk_builder (mk_datetime 2023 3 2 23 59 7))
                   (mk_parsed_args "df-1" (Some ["failed"]) None None)
       = Ok (mk_query
               (between "@actualStartTime" (strftime_iso start)
                        "2023-03-02T23:59:07"
                :: [mk_selector "@status" (mk_operator "EQ" ["failed"])]))
    /\ iso_shaped (strftime_iso start) = true
    /\ iso_shaped "2023-03-02T23:59:07" = true.
Proof.
  apply (proj1 default_query_window (mk_datetime 2023 3 2 23 59 7)
           "df-1" (Some ["failed"])).
  - unfold valid; cbn [year month day hour minute second].
    change (_days_in_month 2023 3) with 31. lia.
  - vm_compute. reflexivity.
Defined.

(** C3: with at least one interval given (and each given interval holding
    its two bounds), the selectors are the BETWEEN selector on
    [@actualStartTime] for [start_interval] if present, then the one on
    [@scheduleStartTime] for [schedule_interval] if present, with the
    caller's strings unchanged, then the EQ selector on [@status] if a
    status is given; the current time plays no part, so no default window
    is mixed in. *)
Theorem explicit_interval_query
    (self : QueryArgBuilder) (pipeline : string)
    (statuses start schedule : option (list string)) :
  start <> None \/ schedule <> None ->
  has_bounds start -> has_bounds schedule ->
  build_query self (mk_parsed_args pipeline statuses start schedule)
  = Ok (mk_query (interval_selectors "@actualStartTime" start
                  ++ interval_selectors "@scheduleStartTime" schedule
                  ++ status_selectors statuses)).
Proof.
  intros Hpresent Hstart Hschedule.
  rewrite build_query_explicit by assumption.
  rewrite schedule_times_ok by assumption.
  cbn [mbind result_bind].
  now rewrite <- app_assoc.
Qed.

Lemma explicit_interval_query_witness :
  build_query (mk_builder (mk_datetime 2024 1 10 0 0 0))
    (mk_parsed_args "df-1" (Some ["running"; "failed"])
       (Some ["2024-01-01T00:00:00"; "2024-01-02T00:00:00"]) None)
  = Ok (mk_query
          [between "@actualStartTime" "2024-01-01T00:00:00"
                   "2024-01-02T00:00:00";
           mk_selector "@status" (mk_operator "EQ" ["running"; "failed"])]).
Proof.
  apply (explicit_interval_query (mk_builder (mk_datetime 2024 1 10 0 0 0))
           "df-1" (Some ["running"; "failed"])
           (Some ["2024-01-01T00:00:00"; "2024-01-02T00:00:00"]) None).
  - left. discriminate.
  - simpl. lia.
  - simpl. exact I.
Defined.

(** C10: of a present interval only the elements at index 0 and 1 are
    read, so cutting it to its first two elements changes nothing; with
    an interval present, [build_query] returns a query exactly when every
    present interval has at least two elements, and raises IndexError
    otherwise. *)
Theorem interval_index_access
    (self : QueryArgBuilder) (pipeline : string)
    (statuses start schedule : option (list string)) :
  build_query self (mk_parsed_args pipeline statuses start schedule)
  = build_query self (mk_parsed_args pipeline statuses
                        (take 2 <$> start) (take 2 <$> schedule))
  /\ (start <> None \/ schedule <> None ->
      (is_ok (build_query self
                (mk_parsed_args pipeline statuses start schedule)) = true
       <-> has_bounds start /\ has_bounds schedule)
      /\ (~ (has_bounds start /\ has_bounds schedule) ->
          build_query self (mk_parsed_args pipeline statuses start schedule)
          = Raise (IndexError "list index out of range"))).
Proof.
  split.
  - unfold build_query, _build_schedule_times; simpl.
    destruct start as [[|a [|b l]]|]; try reflexivity;
      destruct schedule as [[|c [|d l']]|]; reflexivity.
  - intros Hp.
    pose proof (build_query_unbounded self pipeline statuses start schedule Hp)
      as Hshort.
    split; [split|exact Hshort].
    + intros Hok.
      destruct start as [[|a [|b l]]|];
        destruct schedule as [[|c [|d l']]|];
        simpl; try (split; first [exact I | lia]);
        exfalso; (rewrite Hshort in Hok; [discriminate|]); simpl; lia.
    + intros [Hs Hc].
      rewrite build_query_explicit by assumption.
      now rewrite schedule_times_ok.
Qed.

Lemma interval_index_access_witness :
  build_query (mk_builder (mk_datetime 2024 1 10 0 0 0))
    (mk_parsed_args "df-1" None (Some ["2024-01-01T00:00:00"]) None)
  = Raise (IndexError "list index out of range").
Proof.
  apply (proj2 (proj2 (interval_index_access
                         (mk_builder (mk_datetime 2024 1 10 0 0 0))
                         "df-1" None (Some ["2024-01-01T00:00:00"]) None)
                  ltac:(left; discriminate))).
  simpl. intros [Hlen _]. lia.
Defined.

(** A start interval given without a comma is split into one element, and
    the command stops in [build_query], before the service is called. *)
Lemma run_main_single_bound (svc : Service) (log : list event) :
  get_service svc "datapipeline" = Ok tt -> get_endpoint svc = Ok tt ->
  ListRunsCommand._run_main svc
    (ListRunsCommand.mk_cli_args "df-1" None (Some "2024-01-01T00:00:00") None)
    log
  = (log ++ [GetService "datapipeline"; GetEndpoint],
     Raise (IndexError "list index out of range")).
Proof.
  intros Hs He.
  unfold ListRunsCommand._run_main, ListRunsCommand._set_session_objects,
    ListRunsCommand._list_runs, perform, lift, mbind, IO_bind.
  rewrite Hs, He. now rewrite <- app_assoc.
Qed.

(** ** Status validation *)

Section StatusValidation.

Import ListRunsCommand.

Lemma validate_all_valid (toks : list string) :
  Forall (fun tok => tok ∈ VALID_STATUS) toks ->
  _validate_status_choices toks = Ok tt.
Proof.
  induction 1 as [|tok rest Hin _ IH]; simpl.
  - reflexivity.
  - unfold str_in. now rewrite bool_decide_eq_true_2.
Qed.

Lemma validate_some_invalid (toks : list string) :
  Exists (fun tok => tok ∉ VALID_STATUS) toks ->
  exists tok, tok ∈ toks /\ (tok ∉ VALID_STATUS)
    /\ _validate_status_choices toks
       = Raise (ValueError (invalid_status_message tok)).
Proof.
  induction toks as [|t rest IH]; intros Hex.
  - inversion Hex.
  - simpl. unfold str_in.
    destruct (decide (t ∈ VALID_STATUS)) as [Hin|Hout].
    + rewrite bool_decide_eq_true_2 by assumption.
      destruct IH as (tok & Hmem & Hbad & Heq).
      { inversion Hex; subst; [contradiction|assumption]. }
      exists tok. split; [now apply list_elem_of_further|now split].
    + rewrite bool_decide_eq_false_2 by assumption.
      exists t. split; [apply list_elem_of_here|]. split; [assumption|].
      reflexivity.
Qed.

End StatusValidation.

(** C4: every token of the comma-separated status is checked against the
    eight valid statuses.  When all are valid the arguments parse, with
    the tokens as status; when one is not, parsing raises ValueError with
    a message that names an offending token and lists the valid set, and
    the command stops there: after the service and endpoint objects were
    obtained, nothing is queried, described or written. *)
Theorem invalid_status_rejected
    (svc : Service) (args : ListRunsCommand.CliArgs) (csv : string)
    (log : list event) :
  ListRunsCommand.cli_status args = Some csv ->
  (Forall (fun tok => tok ∈ ListRunsCommand.VALID_STATUS)
          (ListRunsCommand.split_csv csv) ->
   ListRunsCommand._parse_type_args args
   = Ok (mk_parsed_args (ListRunsCommand.cli_pipeline_id args)
           (Some (ListRunsCommand.split_csv csv))
           (ListRunsCommand.split_csv
              <$> ListRunsCommand.cli_start_interval args)
           (ListRunsCommand.split_csv
              <$> ListRunsCommand.cli_schedule_interval args)))
  /\ (Exists (fun tok => tok ∉ ListRunsCommand.VALID_STATUS)
             (ListRunsCommand.split_csv csv) ->
      exists tok,
        tok ∈ ListRunsCommand.split_csv csv
        /\ (tok ∉ ListRunsCommand.VALID_STATUS)
        /\ ListRunsCommand._parse_type_args args
           = Raise (ValueError (invalid_status_message tok))
        /\ (get_service svc "datapipeline" = Ok tt ->
            get_endpoint svc = Ok tt ->
            ListRunsCommand._run_main svc args log
            = (log ++ [GetService "datapipeline"; GetEndpoint],
               Raise (ValueError (invalid_status_message tok))))
        /\ (exists events e,
              ListRunsCommand._run_main svc args log
              = (log ++ events, Raise e)
              /\ Forall session_event events)).
Proof.
  intros Hst. split.
  - intros Hall. unfold ListRunsCommand._parse_type_args. rewrite Hst.
    now rewrite (validate_all_valid _ Hall).
  - intros Hex.
    destruct (validate_some_invalid _ Hex) as (tok & Hmem & Hbad & Heq).
    exists tok. split; [assumption|]. split; [assumption|].
    assert (Hparse : ListRunsCommand._parse_type_args args
                     = Raise (ValueError (invalid_status_message tok))).
    { unfold ListRunsCommand._parse_type_args. rewrite Hst.
      now rewrite Heq. }
    split; [assumption|].
    unfold ListRunsCommand._run_main, ListRunsCommand._set_session_objects,
      perform, lift, mbind, IO_bind.
    rewrite Hparse. split.
    + intros -> ->. now rewrite <- app_assoc.
    + destruct (get_service svc "datapipeline") as [[]|e1].
      * destruct (get_endpoint svc) as [[]|e2];
          eexists _, _; rewrite <- app_assoc;
          (split; [reflexivity|]);
          repeat (apply List.Forall_cons; [unfold session_event; auto|]);
          apply List.Forall_nil.
      * eexists _, _. split; [reflexivity|].
        apply List.Forall_cons;
          [unfold session_event; auto|apply List.Forall_nil].
Qed.

Lemma invalid_status_rejected_witness :
  exists tok,
    tok ∈ ["running"; "bogus"]
    /\ (tok ∉ ListRunsCommand.VALID_STATUS)
    /\ ListRunsCommand._parse_type_args
         (ListRunsCommand.mk_cli_args "df-1" (Some "running, bogus") None None)
       = Raise (ValueError (invalid_status_message tok))
    /\ ListRunsCommand._run_main
         (mk_service (mk_datetime 2024 1 10 0 0 0)
            (fun _ => Ok tt) (Ok tt) (fun _ _ => Ok ∅) (fun _ _ => Ok ∅))
         (ListRunsCommand.mk_cli_args "df-1" (Some "running, bogus") None None)
         []
       = ([GetService "datapipeline"; GetEndpoint],
          Raise (ValueError (invalid_status_message tok))).
Proof.
  destruct (proj2 (invalid_status_rejected
                     (mk_service (mk_datetime 2024 1 10 0 0 0)
                        (fun _ => Ok tt) (Ok tt)
                        (fun _ _ => Ok ∅) (fun _ _ => Ok ∅))
                     (ListRunsCommand.mk_cli_args "df-1"
                        (Some "running, bogus") None None)
                     "running, bogus" [] eq_refl))
    as (tok & Hmem & Hbad & Hparse & Hrun & _).
  - apply Exists_cons_tl, Exists_cons_hd.
    intros Hin. vm_compute in Hin.
    repeat (apply elem_of_cons in Hin as [Hin|Hin]; [discriminate|]).
    now apply elem_of_nil in Hin.
  - exists tok. split; [exact Hmem|]. split; [exact Hbad|].
    split; [exact Hparse|]. exact (Hrun eq_refl eq_refl).
Defined.

(** ** Sorting by key *)

Section StableSort.

Context {A K : Type} `{PyOrd K} `{EqDecision K}.
Variable f : A -> K.

(** The keys on which [<] succeeds, and the order it computes there. *)
Variable dom : K -> Prop.
Variable ltb : K -> K -> bool.

Hypothesis lt_ok : forall a b, dom a -> dom b -> py_lt a b = Ok (ltb a b).
Hypothesis ltb_irrefl : forall a, dom a -> ltb a a = false.
Hypothesis ltb_asym :
  forall a b, dom a -> dom b -> ltb a b = true -> ltb b a = false.
Hypothesis ltb_le_trans :
  forall a b c, dom a -> dom b -> dom c ->
    ltb b a = false -> ltb c b = false -> ltb c a = false.

Lemma sort_insert_splits (x : A) (l : list A) :
  dom (f x) -> Forall (fun y => dom (f y)) l ->
  exists before after,
    l = before ++ after
    /\ sort_insert f x l = Ok (before ++ x :: after)
    /\ Forall (fun y => ltb (f y) (f x) = true) before
    /\ match after with
       | [] => True
       | z :: _ => ltb (f z) (f x) = false
       end.
Proof.
  intros Hx. induction 1 as [|y l Hy Hl IH].
  - exists [], []. repeat split. constructor.
  - cbn [sort_insert]. rewrite (lt_ok _ _ Hy Hx). cbn [mbind result_bind].
    destruct (ltb (f y) (f x)) eqn:Hlt.
    + destruct IH as (before & after & -> & Hins & Hbefore & Hafter).
      exists (y :: before), after. rewrite Hins. cbn [mbind result_bind].
      repeat split; [|assumption]. now constructor.
    + exists [], (y :: l). repeat split; [constructor|assumption].
Qed.

Lemma sort_insert_sorted (x : A) (before after : list A) :
  dom (f x) -> Forall (fun y => dom (f y)) (before ++ after) ->
  StronglySorted (fun a b => ltb (f b) (f a) = false) (before ++ after) ->
  Forall (fun y => ltb (f y) (f x) = true) before ->
  match after with
  | [] => True
  | z :: _ => ltb (f z) (f x) = false
  end ->
  StronglySorted (fun a b => ltb (f b) (f a) = false) (before ++ x :: after).
Proof.
  intros Hx Hdom Hsorted Hbefore Hafter.
  assert (Hx_after : Forall (fun z => ltb (f z) (f x) = false) after).
  { apply Forall_app in Hdom as [_ Hdom].
    apply StronglySorted_app_1_r in Hsorted.
    destruct after as [|z after]; [constructor|].
    inversion Hdom as [|? ? Hz Hdom']; subst.
    inversion Hsorted as [|? ? _ Hz_after]; subst.
    constructor; [assumption|].
    rewrite Forall_forall in Hz_after, Hdom' |- *.
    intros w Hw. apply (ltb_le_trans (f x) (f z) (f w)); auto. }
  clear Hafter. induction before as [|y before IH]; cbn [app] in *.
  - now constructor.
  - inversion Hdom as [|? ? Hy Hdom']; subst.
    inversion Hsorted as [|? ? Hsorted' Hy_rest]; subst.
    inversion Hbefore as [|? ? Hyx Hbefore']; subst.
    constructor; [now apply IH|].
    apply Forall_app in Hy_rest as [Hy_before Hy_after].
    apply Forall_app. split; [assumption|].
    constructor; [now apply ltb_asym|assumption].
Qed.

Lemma filter_key_insert (k : K) (x : A) (before after : list A) :
  dom (f x) -> Forall (fun y => dom (f y)) before ->
  Forall (fun y => ltb (f y) (f x) = true) before ->
  filter (fun y => f y = k) (before ++ x :: after)
  = filter (fun y => f y = k) (x :: before ++ after).
Proof.
  intros Hx Hdom Hbefore.
  rewrite filter_app, !filter_cons, filter_app.
  destruct (decide (f x = k)) as [Hk|Hk]; [|reflexivity].
  replace (filter (fun y => f y = k) before) with (@nil A); [reflexivity|].
  symmetry. clear after. induction before as [|y before IH]; [reflexivity|].
  inversion Hdom as [|? ? Hy Hdom']; subst.
  inversion Hbefore as [|? ? Hyx Hbefore']; subst.
  rewrite filter_cons_False; [now apply IH|].
  intros Heq. rewrite Heq, ltb_irrefl in Hyx by assumption. discriminate.
Qed.

(** On keys that [<] orders, [list.sort(key=f)] returns the elements
    sorted by key, and those of equal key in the order they had. *)
Lemma list_sort_stable (l : list A) :
  Forall (fun y => dom (f y)) l ->
  exists sorted,
    list_sort f l = Ok sorted
    /\ sorted ≡ₚ l
    /\ StronglySorted (fun a b => ltb (f b) (f a) = false) sorted
    /\ forall k, filter (fun y => f y = k) sorted
                 = filter (fun y => f y = k) l.
Proof.
  induction 1 as [|x l Hx Hl IH].
  - exists []. repeat split; constructor.
  - destruct IH as (sorted & Hsort & Hperm & Hsorted & Hstable).
    assert (Hdom : Forall (fun y => dom (f y)) sorted) by now rewrite Hperm.
    destruct (sort_insert_splits x sorted Hx Hdom)
      as (before & after & -> & Hins & Hbefore & Hafter).
    exists (before ++ x :: after). cbn [list_sort]. rewrite Hsort.
    cbn [mbind result_bind]. split; [assumption|]. split; [|split].
    + rewrite <- Hperm. symmetry. apply Permutation_middle.
    + now apply sort_insert_sorted.
    + intros k. rewrite filter_key_insert; auto.
      * rewrite !filter_cons, Hstable. reflexivity.
      * now apply Forall_app in Hdom as [Hdom _].
Qed.

End StableSort.

(** Whatever the keys, a sort that returns has permuted its input. *)
Lemma list_sort_permutation {A K} `{PyOrd K} (f : A -> K) (l sorted : list A) :
  list_sort f l = Ok sorted -> sorted ≡ₚ l.
Proof.
  revert sorted; induction l as [|x l IH]; intros sorted Hsort.
  - injection Hsort as <-. reflexivity.
  - cbn [list_sort] in Hsort.
    destruct (list_sort f l) as [mid|e]; [|discriminate].
    cbn [mbind result_bind] in Hsort. rewrite <- (IH mid eq_refl).
    clear IH. revert sorted Hsort.
    induction mid as [|y mid IHm]; intros sorted Hsort.
    + injection Hsort as <-. reflexivity.
    + cbn [sort_insert] in Hsort.
      destruct (py_lt (f y) (f x)) as [[]|e]; cbn [mbind result_bind] in Hsort;
        try discriminate.
      * destruct (sort_insert f x mid) as [placed|e]; [|discriminate].
        cbn [mbind result_bind] in Hsort. injection Hsort as <-.
        rewrite (IHm placed eq_refl). apply perm_swap.
      * injection Hsort as <-. reflexivity.
Qed.

(** *** The order of the keys of [_list_runs] *)

Lemma slt_iff (a b : string) : String.ltb a b = true <-> String_as_OT.lt a b.
Proof.
  unfold String.ltb. rewrite <- String_as_OT.cmp_lt.
  unfold String_as_OT.cmp. destruct (String.compare a b); split; congruence.
Qed.

Lemma slt_irrefl (a : string) : ~ String_as_OT.lt a a.
Proof. intros Hlt. exact (String_as_OT.lt_not_eq _ _ Hlt eq_refl). Qed.

Lemma slt_total (a b : string) :
  String_as_OT.lt a b \/ a = b \/ String_as_OT.lt b a.
Proof. destruct (String_as_OT.compare a b); auto. Qed.

Lemma key_ltb_iff (s1 n1 s2 n2 : string) :
  key_ltb (Some s1, Some n1) (Some s2, Some n2) = true
  <-> pair_lt (s1, n1) (s2, n2).
Proof.
  unfold key_ltb, pair_lt; cbn [py_lt py_eq PyOrd_pair PyOrd_value fst snd].
  destruct (decide (s1 = s2)) as [->|Hs].
  - rewrite bool_decide_eq_true_2 by reflexivity.
    destruct (decide (n1 = n2)) as [->|Hn].
    + rewrite bool_decide_eq_true_2 by reflexivity.
      split; [discriminate|].
      intros [Hlt|[_ Hlt]]; now apply slt_irrefl in Hlt.
    + rewrite bool_decide_eq_false_2 by congruence. rewrite slt_iff.
      split; [auto|]. intros [Hlt|[_ Hlt]]; [|assumption].
      now apply slt_irrefl in Hlt.
  - rewrite bool_decide_eq_false_2 by congruence. rewrite slt_iff.
    split; [auto|]. intros [Hlt|[Heq _]]; [assumption|contradiction].
Qed.

Lemma pair_lt_irrefl (a : string * string) : ~ pair_lt a a.
Proof.
  destruct a as [s n]. intros [Hlt|[_ Hlt]]; now apply slt_irrefl in Hlt.
Qed.

Lemma pair_lt_trans (a b c : string * string) :
  pair_lt a b -> pair_lt b c -> pair_lt a c.
Proof.
  destruct a as [s1 n1], b as [s2 n2], c as [s3 n3]. unfold pair_lt; simpl.
  intros [H12|[-> H12]] [H23|[-> H23]]; eauto using String_as_OT.lt_trans.
Qed.

Lemma pair_lt_total (a b : string * string) :
  pair_lt a b \/ a = b \/ pair_lt b a.
Proof.
  destruct a as [s1 n1], b as [s2 n2]. unfold pair_lt; simpl.
  destruct (slt_total s1 s2) as [?|[->|?]]; auto.
  destruct (slt_total n1 n2) as [?|[->|?]]; auto.
Qed.

Lemma key_ltb_false_iff (s1 n1 s2 n2 : string) :
  key_ltb (Some s1, Some n1) (Some s2, Some n2) = false
  <-> (s2, n2) = (s1, n1) \/ pair_lt (s2, n2) (s1, n1).
Proof.
  rewrite <- not_true_iff_false, key_ltb_iff. split.
  - intros Hn. destruct (pair_lt_total (s2, n2) (s1, n1)) as [?|[?|?]];
      auto; contradiction.
  - intros [Heq|Hlt] Hgt.
    + injection Heq as -> ->. now apply pair_lt_irrefl in Hgt.
    + exact (pair_lt_irrefl _ (pair_lt_trans _ _ _ Hlt Hgt)).
Qed.

(** X11, where the keys are strings: when every record has a string under
    [@scheduledStartTime] and under [name], the sort of [_list_runs]
    returns the records ordered by (scheduled start, name), and records
    with the same key keep the order they came in. *)
Lemma list_runs_sort_stable (records : list Record_) :
  Forall has_sort_key records ->
  exists sorted,
    list_sort ListRunsCommand.sort_key records = Ok sorted
    /\ sorted ≡ₚ records
    /\ StronglySorted
         (fun a b => key_ltb (ListRunsCommand.sort_key b)
                             (ListRunsCommand.sort_key a) = false) sorted
    /\ forall k, filter (fun r => ListRunsCommand.sort_key r = k) sorted
                 = filter (fun r => ListRunsCommand.sort_key r = k) records.
Proof.
  intros Hkeys.
  apply (list_sort_stable ListRunsCommand.sort_key string_key key_ltb).
  - intros a b (s1 & n1 & ->) (s2 & n2 & ->).
    unfold key_ltb. cbn [py_lt py_eq PyOrd_pair PyOrd_value fst snd].
    repeat destruct (bool_decide _); reflexivity.
  - intros a (s & n & ->). apply key_ltb_false_iff. now left.
  - intros a b (s1 & n1 & ->) (s2 & n2 & ->) Hlt.
    apply key_ltb_false_iff. right. now apply key_ltb_iff.
  - intros a b c (s1 & n1 & ->) (s2 & n2 & ->) (s3 & n3 & ->).
    rewrite !key_ltb_false_iff.
    intros [Hab|Hab] [Hbc|Hbc].
    + left. congruence.
    + right. now rewrite Hab.
    + right. now rewrite <- Hbc.
    + right. eapply pair_lt_trans; eassumption.
  - eapply Forall_impl; [exact Hkeys|].
    intros r (s & n & Hs & Hn). exists s, n.
    unfold ListRunsCommand.sort_key, dict_get. now rewrite Hs, Hn.
Qed.

(** ** The run-record normalizer *)

Section Normalizer.

Lemma fold_fields_lookup (fs : list ApiField) (d : Record_) (k : string) :
  foldl (fun (d : Record_) field => <[key field := field_value field]> d)
        d fs !! k
  = match last_field k fs with
    | Some f => Some (field_value f)
    | None => d !! k
    end.
Proof.
  unfold last_field.
  induction fs as [|f fs IH] using rev_ind; simpl.
  - reflexivity.
  - rewrite foldl_snoc, rev_unit. simpl.
    destruct (String.eqb_spec (key f) k) as [->|Hne].
    + now rewrite lookup_insert_eq.
    + now rewrite lookup_insert_ne.
Qed.

Lemma convert_object_lookup (obj : ApiObject) (k : string) :
  convert_object obj !! k = record_entry obj k.
Proof.
  unfold convert_object, record_entry. rewrite fold_fields_lookup.
  destruct (last_field k (fields obj)) as [f|]; [reflexivity|].
  destruct (String.eqb_spec k "name") as [->|Hn].
  - now rewrite lookup_insert_eq.
  - rewrite lookup_insert_ne by congruence.
    destruct (String.eqb_spec k "@id") as [->|Hi].
    + now rewrite lookup_insert_eq.
    + rewrite lookup_insert_ne by congruence. apply lookup_empty.
Qed.

End Normalizer.

(** C9: the normalizer returns one record per object, in the order of
    the objects when there is no sort key and in some order of them when
    a sort key is given and the sort returns; the record of an object
    starts from [@id] and [name] and is overwritten by the fields in
    order, so under every key it holds the value of the last field with
    that key, which is the field's stringValue when it has one and its
    refValue otherwise, and [@id]/[name] of the object where no field
    has that key. *)
Theorem convert_builds_records (objs : list ApiObject) :
  (exists records,
      convert_described_objects (K := option string * option string) objs None
      = Ok records
      /\ Forall2 (fun obj (r : Record_) => forall k, r !! k = record_entry obj k)
                 objs records)
  /\ (forall (K : Type) (ord : PyOrd K) (f : Record_ -> K)
             (records : list Record_),
        convert_described_objects objs (Some f) = Ok records ->
        exists objs',
          objs ≡ₚ objs'
          /\ Forall2 (fun obj (r : Record_) =>
                        forall k, r !! k = record_entry obj k)
                     objs' records).
Proof.
  assert (Hall : forall l : list ApiObject,
             Forall2 (fun obj (r : Record_) =>
                        forall k, r !! k = record_entry obj k)
                     l (map convert_object l)).
  { induction l as [|obj l IH]; simpl; constructor; [|exact IH].
    intros k. apply convert_object_lookup. }
  split.
  - exists (map convert_object objs). split; [reflexivity|apply Hall].
  - intros K ord f records Hsort. unfold convert_described_objects in Hsort.
    apply list_sort_permutation in Hsort.
    apply Permutation_map_inv in Hsort as (objs' & -> & Hperm).
    exists objs'. split; [assumption|apply Hall].
Qed.

Lemma convert_builds_records_witness :
  let early := mk_object "o1" "a"
                 [mk_field "@scheduledStartTime" (Some "2024-01-01T00:00:00")
                    None] in
  let late := mk_object "o2" "b"
                [mk_field "@scheduledStartTime" (Some "2024-01-02T00:00:00")
                   None] in
  exists objs',
    [late; early] ≡ₚ objs'
    /\ Forall2 (fun obj (r : Record_) => forall k, r !! k = record_entry obj k)
               objs' [convert_object early; convert_object late].
Proof.
  intros early late.
  apply (proj2 (convert_builds_records [late; early])
           _ _ ListRunsCommand.sort_key).
  vm_compute. reflexivity.
Defined.

(** C5 (as the code has it): a field with neither value does not make
    the conversion fail.  Without a sort key every input converts, and
    where such a field is the last one of its key the record holds [None]
    under that key. *)
Theorem missing_value_is_none (objs : list ApiObject) :
  convert_described_objects (K := option string * option string) objs None
  = Ok (map convert_object objs)
  /\ forall obj f,
       obj ∈ objs -> last_field (key f) (fields obj) = Some f ->
       stringValue f = None -> refValue f = None ->
       convert_object obj !! key f = Some None.
Proof.
  split; [reflexivity|].
  intros obj f _ Hlast Hs Hr.
  rewrite convert_object_lookup. unfold record_entry.
  now rewrite Hlast, Hs, Hr.
Qed.

Lemma missing_value_is_none_witness :
  convert_object (mk_object "o1" "run" [mk_field "@status" None None])
    !! "@status" = Some None.
Proof.
  apply (proj2 (missing_value_is_none
                  [mk_object "o1" "run" [mk_field "@status" None None]])
           (mk_object "o1" "run" [mk_field "@status" None None])
           (mk_field "@status" None None)).
  - apply list_elem_of_here.
  - reflexivity.
  - reflexivity.
  - reflexivity.
Defined.

(** C5, the claim refuted: the object below has a field with neither
    value, and the conversion returns a record for it. *)
Lemma missing_value_counterexample :
  let f := mk_field "@status" None None in
  let objs := [mk_object "o1" "run" [f]] in
  (stringValue f = None /\ refValue f = None)
  /\ ~ (exists e, convert_described_objects
                    (K := option string * option string) objs None
                  = Raise e)
  /\ convert_described_objects (K := option string * option string) objs None
     = Ok [<["@status" := None]>
             (<["name" := Some "run"]> (<["@id" := Some "o1"]> ∅))].
Proof.
  simpl. split; [split; reflexivity|]. split.
  - intros [e He]. discriminate He.
  - reflexivity.
Qed.

(** C6, at the failing input: one run with a scheduled start and one
    without.  The keys are ("2024-01-01T00:00:00", "a") and (None, "b");
    the sort compares them and the comparison of [None] with a string
    raises. *)
Theorem sort_key_none_raises :
  convert_described_objects
    [mk_object "o1" "a"
       [mk_field "@scheduledStartTime" (Some "2024-01-01T00:00:00") None];
     mk_object "o2" "b" []]
    (Some ListRunsCommand.sort_key)
  = Raise (TypeError
             "'<' not supported between instances of 'NoneType' and 'str'").
Proof. vm_compute. reflexivity. Qed.

(** ** The formatter *)

Section Formatter.

Import ListRunsFormatter.

Lemma length_append (a b : string) :
  String.length (a +:+ b) = (String.length a + String.length b)%nat.
Proof. induction a as [|c a IH]; simpl; [reflexivity|now rewrite IH]. Qed.

Lemma length_repeat_char (c : ascii) (n : nat) :
  String.length (repeat_char c n) = n.
Proof. induction n as [|n IH]; simpl; [reflexivity|now rewrite IH]. Qed.

Lemma length_take_str (n : nat) (s : string) :
  String.length (take_str n s) = Nat.min n (String.length s).
Proof.
  revert s; induction n as [|n IH]; intros [|c s]; simpl; try reflexivity.
  now rewrite IH.
Qed.

Lemma take_str_repeat (c : ascii) (n k : nat) :
  (n <= k)%nat -> take_str n (repeat_char c k) = repeat_char c n.
Proof.
  revert k; induction n as [|n IH]; intros [|k] Hle; simpl;
    try reflexivity; try lia.
  rewrite IH by lia. reflexivity.
Qed.

Lemma fmt_ljust_cut_pad_gen (w k : nat) (s : string) :
  (w <= k)%nat -> fmt_ljust w w s = take_str w (s +:+ repeat_char " " k).
Proof.
  unfold fmt_ljust. revert s k; induction w as [|w IH]; intros s k Hle.
  - reflexivity.
  - destruct s as [|c s].
    + change ("" +:+ repeat_char " " k) with (repeat_char " " k).
      rewrite take_str_repeat by assumption. reflexivity.
    + change (String c s +:+ repeat_char " " k)
        with (String c (s +:+ repeat_char " " k)).
      cbn [take_str String.length Nat.sub].
      change (String c (take_str w s) +:+ ?pad)
        with (String c (take_str w s +:+ pad)).
      f_equal. apply IH. lia.
Qed.

Lemma fmt_ljust_cut_pad (w : nat) (s : string) :
  fmt_ljust w w s = cut_pad w s.
Proof. now apply fmt_ljust_cut_pad_gen. Qed.

Lemma length_cut_pad (w : nat) (s : string) : String.length (cut_pad w s) = w.
Proof.
  unfold cut_pad. rewrite length_take_str, length_append, length_repeat_char.
  lia.
Qed.

Lemma dict_get_shown (obj : Record_) (k : string) :
  str_of_value (dict_get obj k (Some "")) = shown obj k.
Proof. unfold dict_get, shown. now destruct (obj !! k). Qed.

Lemma row_lines_ok (index : Z) (obj : Record_) (parent oid : option string) :
  obj !! "@componentParent" = Some parent -> obj !! "@id" = Some oid ->
  row_lines index obj
  = Ok (fmt_rjust_d 4 (index + 1) +:+ ".  "
          +:+ cut_pad 50 (str_of_value parent)
          +:+ "  " +:+ cut_pad 19 (shown obj "@scheduledStartTime")
          +:+ "  " +:+ cut_pad 23 (shown obj "@status"),
        "       " +:+ cut_pad 50 (str_of_value oid)
          +:+ "  " +:+ cut_pad 19 (shown obj "@actualStartTime")
          +:+ "  " +:+ cut_pad 19 (shown obj "@actualEndTime")).
Proof.
  intros Hp Hi. unfold row_lines, dict_getitem. rewrite Hp, Hi.
  cbn [mbind result_bind].
  unfold FIRST_ROW_FORMAT_STRING, SECOND_ROW_FORMAT_STRING.
  now rewrite !fmt_ljust_cut_pad, !dict_get_shown.
Qed.

Lemma row_lines_missing (index : Z) (obj : Record_) :
  lacks_required obj ->
  exists k, k ∈ ["@componentParent"; "@id"]
            /\ row_lines index obj = Raise (KeyError k).
Proof.
  intros Hlack. unfold row_lines, dict_getitem.
  destruct (obj !! "@componentParent") as [parent|] eqn:Hp.
  - destruct Hlack as [Hl|Hl]; [congruence|]. rewrite Hl.
    exists "@id". split; [|reflexivity].
    apply list_elem_of_further, list_elem_of_here.
  - exists "@componentParent". split; [|reflexivity]. apply list_elem_of_here.
Qed.

Lemma lacks_required_dec (obj : Record_) :
  {lacks_required obj} + {exists parent oid,
                             obj !! "@componentParent" = Some parent
                             /\ obj !! "@id" = Some oid}.
Proof.
  unfold lacks_required.
  destruct (obj !! "@componentParent") as [parent|]; [|left; now left].
  destruct (obj !! "@id") as [oid|]; [|left; now right].
  right. now exists parent, oid.
Qed.

Lemma print_row_ok (index : Z) (obj : Record_) (log : list event)
    (first_row second_row : string) :
  row_lines index obj = Ok (first_row, second_row) ->
  _print_row index obj log
  = (log ++ [StreamWrite first_row; StreamWrite (String "010" "");
             StreamWrite second_row;
             StreamWrite (String "010" (String "010" ""))], Ok tt).
Proof.
  intros Hrow. unfold _print_row, lift, stream_write, perform, mbind, IO_bind.
  rewrite Hrow. now rewrite <- !app_assoc.
Qed.

Lemma print_row_raise (index : Z) (obj : Record_) (log : list event) (e : exn) :
  row_lines index obj = Raise e -> _print_row index obj log = (log, Raise e).
Proof.
  intros Hrow. unfold _print_row, lift, mbind, IO_bind. now rewrite Hrow.
Qed.

Lemma print_rows_missing (objects : list Record_) :
  Exists lacks_required objects ->
  forall index log, exists log' k,
    k ∈ ["@componentParent"; "@id"]
    /\ print_rows index objects log = (log', Raise (KeyError k)).
Proof.
  induction objects as [|obj rest IH]; intros Hex index log.
  - inversion Hex.
  - cbn [print_rows]. unfold mbind, IO_bind.
    destruct (lacks_required_dec obj) as [Hlack|(parent & oid & Hp & Hi)].
    + destruct (row_lines_missing index obj Hlack) as (k & Hk & Hrow).
      rewrite (print_row_raise _ _ _ _ Hrow). now exists log, k.
    + rewrite (print_row_ok _ _ _ _ _ (row_lines_ok index obj _ _ Hp Hi)).
      apply IH. inversion Hex as [? ? Hl|]; subst; [|assumption].
      destruct Hl as [Hl|Hl]; congruence.
Qed.

Lemma print_rows_complete (objects : list Record_) :
  Forall (fun obj => ~ lacks_required obj) objects ->
  forall index log, exists log', print_rows index objects log = (log', Ok tt).
Proof.
  induction 1 as [|obj rest Hobj _ IH]; intros index log.
  - now exists log.
  - cbn [print_rows]. unfold mbind, IO_bind.
    destruct (lacks_required_dec obj) as [Hlack|(parent & oid & Hp & Hi)];
      [contradiction|].
    rewrite (print_row_ok _ _ _ _ _ (row_lines_ok index obj _ _ Hp Hi)).
    apply IH.
Qed.

End Formatter.

Lemma append_assoc (a b c : string) : (a +:+ b) +:+ c = a +:+ (b +:+ c).
Proof.
  induction a as [|x a IH].
  - reflexivity.
  - change ((String x a +:+ b) +:+ c) with (String x ((a +:+ b) +:+ c)).
    change (String x a +:+ b +:+ c) with (String x (a +:+ b +:+ c)).
    now rewrite IH.
Qed.

(** C7: a record that has [@componentParent] and [@id] is written as its
    two lines, with the empty string shown for each of
    [@scheduledStartTime], [@status], [@actualStartTime] and
    [@actualEndTime] that it lacks; a record without [@componentParent]
    or [@id] makes [_print_row], and with it the display of any list that
    contains such a record, raise KeyError on that key (the spec's
    MissingFieldError). *)
Theorem print_row_required_and_defaults :
  (forall (index : Z) (obj : Record_) (log : list event)
          (parent oid : option string),
      obj !! "@componentParent" = Some parent -> obj !! "@id" = Some oid ->
      ListRunsFormatter._print_row index obj log
      = (log ++
         [StreamWrite
            (fmt_rjust_d 4 (index + 1) +:+ ".  "
             +:+ cut_pad 50 (str_of_value parent)
             +:+ "  " +:+ cut_pad 19 (shown obj "@scheduledStartTime")
             +:+ "  " +:+ cut_pad 23 (shown obj "@status"));
          StreamWrite (String "010" "");
          StreamWrite
            ("       " +:+ cut_pad 50 (str_of_value oid)
             +:+ "  " +:+ cut_pad 19 (shown obj "@actualStartTime")
             +:+ "  " +:+ cut_pad 19 (shown obj "@actualEndTime"));
          StreamWrite (String "010" (String "010" ""))],
         Ok tt))
  /\ (forall (index : Z) (obj : Record_) (log : list event),
        lacks_required obj ->
        exists k, k ∈ ["@componentParent"; "@id"]
          /\ ListRunsFormatter._print_row index obj log
             = (log, Raise (KeyError k)))
  /\ (forall (objects : list Record_) (log : list event),
        Exists lacks_required objects ->
        exists log' k, k ∈ ["@componentParent"; "@id"]
          /\ ListRunsFormatter.display_objects_to_user objects log
             = (log', Raise (KeyError k)))
  /\ (forall (objects : list Record_) (log : list event),
        Forall (fun obj => ~ lacks_required obj) objects ->
        exists log',
          ListRunsFormatter.display_objects_to_user objects log
          = (log', Ok tt)).
Proof.
  split; [|split; [|split]].
  - intros index obj log parent oid Hp Hi.
    apply print_row_ok. now apply row_lines_ok.
  - intros index obj log Hlack.
    destruct (row_lines_missing index obj Hlack) as (k & Hk & Hrow).
    exists k. split; [assumption|]. now apply print_row_raise.
  - intros objects log Hex.
    unfold ListRunsFormatter.display_objects_to_user, mbind, IO_bind.
    destruct (ListRunsFormatter._print_headers log) as [log1 [[]|e]] eqn:Hh;
      [|discriminate Hh].
    apply print_rows_missing. assumption.
  - intros objects log Hall.
    unfold ListRunsFormatter.display_objects_to_user, mbind, IO_bind.
    destruct (ListRunsFormatter._print_headers log) as [log1 [[]|e]] eqn:Hh;
      [|discriminate Hh].
    apply print_rows_complete. assumption.
Qed.

Lemma print_row_required_and_defaults_witness :
  let obj : Record_ :=
    <["@status" := Some "finished"]>
      (<["@id" := Some "df-123"]> (<["@componentParent" := Some "Foo"]> ∅)) in
  ListRunsFormatter._print_row 0 obj []
  = ([StreamWrite ("   1.  " +:+ cut_pad 50 "Foo" +:+ "  " +:+ cut_pad 19 ""
                   +:+ "  " +:+ cut_pad 23 "finished");
      StreamWrite (String "010" "");
      StreamWrite ("       " +:+ cut_pad 50 "df-123" +:+ "  "
                   +:+ cut_pad 19 "" +:+ "  " +:+ cut_pad 19 "");
      StreamWrite (String "010" (String "010" ""))],
     Ok tt).
Proof.
  intros obj.
  apply (proj1 print_row_required_and_defaults 0 obj []
           (Some "Foo") (Some "df-123")).
  - reflexivity.
  - reflexivity.
Defined.

(** C8 (as the code has it): each string field of a row is cut or padded
    to a fixed width, 50, 19 and 23 characters on the first line and 50,
    19 and 19 on the second. *)
Theorem row_column_widths (index : Z) (obj : Record_)
    (first_row second_row : string) :
  ListRunsFormatter.row_lines index obj = Ok (first_row, second_row) ->
  (exists parent oid,
      obj !! "@componentParent" = Some parent /\ obj !! "@id" = Some oid
      /\ first_row
         = fmt_rjust_d 4 (index + 1) +:+ ".  "
           +:+ cut_pad 50 (str_of_value parent)
           +:+ "  " +:+ cut_pad 19 (shown obj "@scheduledStartTime")
           +:+ "  " +:+ cut_pad 23 (shown obj "@status")
      /\ second_row
         = "       " +:+ cut_pad 50 (str_of_value oid)
           +:+ "  " +:+ cut_pad 19 (shown obj "@actualStartTime")
           +:+ "  " +:+ cut_pad 19 (shown obj "@actualEndTime"))
  /\ three_columns (fmt_rjust_d 4 (index + 1) +:+ ".  ") 50 19 23 first_row
  /\ three_columns "       " 50 19 19 second_row.
Proof.
  intros Hrow.
  destruct (lacks_required_dec obj) as [Hlack|(parent & oid & Hp & Hi)].
  - destruct (row_lines_missing index obj Hlack) as (k & _ & Hk). congruence.
  - rewrite (row_lines_ok index obj parent oid Hp Hi) in Hrow.
    injection Hrow as <- <-.
    split; [|split].
    + exists parent, oid. repeat split; assumption.
    + eexists _, _, _. rewrite append_assoc.
      split; [reflexivity|]. now rewrite !length_cut_pad.
    + eexists _, _, _. split; [reflexivity|]. now rewrite !length_cut_pad.
Qed.

Lemma row_column_widths_witness :
  let obj : Record_ :=
    <["@actualEndTime" := Some "2024-01-01T00:00:00.000"]>
      (<["@id" := Some "df-123"]> (<["@componentParent" := Some "Foo"]> ∅)) in
  three_columns "       " 50 19 19
    ("       " +:+ cut_pad 50 "df-123" +:+ "  " +:+ cut_pad 19 ""
     +:+ "  " +:+ "2024-01-01T00:00:00").
Proof.
  intros obj.
  apply (row_column_widths 0 obj
           ("   1.  " +:+ cut_pad 50 "Foo" +:+ "  " +:+ cut_pad 19 ""
            +:+ "  " +:+ cut_pad 23 "")
           ("       " +:+ cut_pad 50 "df-123" +:+ "  " +:+ cut_pad 19 ""
            +:+ "  " +:+ "2024-01-01T00:00:00")).
  vm_compute. reflexivity.
Defined.

(** C8, the claim refuted: the second line of this row is not made of
    columns 50, 19 and 23 wide; its third column is the 19 characters
    that are left of the 23 of [@actualEndTime]. *)
Lemma second_row_width_counterexample :
  let obj : Record_ :=
    <["@actualEndTime" := Some "2024-01-01T00:00:00.000"]>
      (<["@id" := Some "df-123"]> (<["@componentParent" := Some "Foo"]> ∅)) in
  exists first_row second_row,
    ListRunsFormatter.row_lines 0 obj = Ok (first_row, second_row)
    /\ second_row
       = "       " +:+ cut_pad 50 "df-123" +:+ "  " +:+ cut_pad 19 ""
         +:+ "  " +:+ "2024-01-01T00:00:00"
    /\ ~ three_columns "       " 50 19 23 second_row.
Proof.
  intros obj. eexists _, _. split; [vm_compute; reflexivity|].
  split; [vm_compute; reflexivity|].
  intros (c1 & c2 & c3 & Heq & H1 & H2 & H3).
  apply (f_equal String.length) in Heq.
  rewrite !length_append, H1, H2, H3 in Heq.
  vm_compute in Heq. discriminate Heq.
Qed.

(** ** The definition translator *)

Section RoundTrip.

Import Translator.

Lemma entry_of_well_formed (f : ApiField) :
  well_formed_field f ->
  exists v, to_definition_entry f = Done (key f, v)
            /\ to_api_field (key f) v = Done f
            /\ entry_to_fields (key f, v) = Done [f].
Proof.
  destruct f as [k sv rv]. unfold well_formed_field; simpl.
  intros [[[s ->] ->]|[-> [r ->]]].
  - exists (Scalar s). repeat split.
  - exists (Reference r). repeat split.
Qed.

Lemma mapM_snoc {A B} (f : A -> outcome B) (l : list A) (x : A)
    (ys : list B) (y : B) :
  mapM f l = Done ys -> f x = Done y -> mapM f (l ++ [x]) = Done (ys ++ [y]).
Proof.
  revert ys; induction l as [|a l IH]; intros ys Hl Hx; simpl in *.
  - injection Hl as <-. now rewrite Hx.
  - destruct (f a) as [b|e]; [|discriminate]. simpl in *.
    destruct (mapM f l) as [bs|e]; [|discriminate]. simpl in *.
    injection Hl as <-. now rewrite (IH bs eq_refl Hx).
Qed.

(** Adding the entry of a field to the entries emits the old fields and
    the new one, the new one at the end of the group of its key. *)
Lemma add_entry_emits (k : string) (v : value) (f : ApiField)
    (obj : DefinitionObject) (groups : list (list ApiField)) :
  to_api_field k v = Done f ->
  mapM entry_to_fields obj = Done groups ->
  exists groups',
    mapM entry_to_fields (add_entry k v obj) = Done groups'
    /\ concat groups' ≡ₚ concat groups ++ [f].
Proof.
  intros Hf. revert groups.
  induction obj as [|[k' old] rest IH]; intros groups Hemit.
  - simpl in Hemit. injection Hemit as <-.
    exists [[f]]. split; [|reflexivity].
    simpl. unfold entry_to_fields; simpl.
    destruct v; simpl in *; try discriminate; now injection Hf as <-.
  - cbn [mapM] in Hemit.
    destruct (entry_to_fields (k', old)) as [g|e] eqn:Hg; [|discriminate].
    cbn [mbind outcome_bind] in Hemit.
    destruct (mapM entry_to_fields rest) as [gs|e] eqn:Hgs; [|discriminate].
    cbn [mbind outcome_bind] in Hemit. injection Hemit as <-.
    cbn [add_entry].
    destruct (String.eqb_spec k k') as [<-|Hne].
    + exists ((g ++ [f]) :: gs). split.
      * cbn [mapM]. rewrite Hgs.
        assert (Hnew : entry_to_fields
                         (k, match old with
                             | Sequence items => Sequence (items ++ [v])
                             | _ => Sequence [old; v]
                             end) = Done (g ++ [f])).
        { unfold entry_to_fields in *. cbn [fst snd] in *.
          destruct old as [s|r|items].
          - simpl in Hg. injection Hg as <-. cbn [mapM]. now rewrite Hf.
          - simpl in Hg. injection Hg as <-. cbn [mapM]. now rewrite Hf.
          - now apply mapM_snoc. }
        now rewrite Hnew.
      * cbn [concat]. rewrite <- !app_assoc.
        apply Permutation_app_head, Permutation_app_comm.
    + destruct (IH gs eq_refl) as (gs' & Hemit' & Hperm).
      exists (g :: gs'). split.
      * cbn [mapM]. now rewrite Hg, Hemit'.
      * cbn [concat]. rewrite Hperm. now rewrite app_assoc.
Qed.

Lemma filter_add_entry (k : string) (v : value) (obj : DefinitionObject) :
  is_reserved k = false ->
  filter (fun entry => is_reserved (fst entry) = false) (add_entry k v obj)
  = add_entry k v
      (filter (fun entry => is_reserved (fst entry) = false) obj).
Proof.
  intros Hk. induction obj as [|[k' old] rest IH].
  - cbn [add_entry]. now rewrite filter_cons_True by exact Hk.
  - cbn [add_entry]. destruct (String.eqb_spec k k') as [<-|Hne].
    + rewrite !filter_cons_True by assumption.
      cbn [add_entry]. now rewrite String.eqb_refl.
    + destruct (is_reserved k') eqn:Hk'.
      * rewrite !filter_cons_False by (simpl; congruence). exact IH.
      * rewrite !filter_cons_True by assumption.
        cbn [add_entry]. destruct (String.eqb_spec k k'); [congruence|].
        now rewrite IH.
Qed.

Lemma entry_lookup_add_entry (k k0 : string) (v : value)
    (obj : DefinitionObject) :
  k <> k0 -> entry_lookup k0 (add_entry k v obj) = entry_lookup k0 obj.
Proof.
  intros Hne. induction obj as [|[k' old] rest IH].
  - simpl. destruct (String.eqb_spec k0 k); congruence.
  - cbn [add_entry]. destruct (String.eqb_spec k k') as [<-|Hne'].
    + simpl. destruct (String.eqb_spec k0 k); congruence.
    + simpl. now rewrite IH.
Qed.

Lemma is_reserved_false (k : string) :
  is_reserved k = false -> k <> "id" /\ k <> "name".
Proof.
  unfold is_reserved. intros H. apply orb_false_iff in H as [H1 H2].
  split; intros ->; discriminate.
Qed.

Lemma add_fields_emits (fs : list ApiField) :
  Forall well_formed_field fs ->
  Forall (fun f => is_reserved (key f) = false) fs ->
  forall (obj : DefinitionObject) (groups : list (list ApiField)),
    mapM entry_to_fields
         (filter (fun entry => is_reserved (fst entry) = false) obj)
    = Done groups ->
    exists obj' groups',
      add_fields fs obj = Done obj'
      /\ entry_lookup "id" obj' = entry_lookup "id" obj
      /\ entry_lookup "name" obj' = entry_lookup "name" obj
      /\ mapM entry_to_fields
              (filter (fun entry => is_reserved (fst entry) = false) obj')
         = Done groups'
      /\ concat groups' ≡ₚ concat groups ++ fs.
Proof.
  induction fs as [|f fs IH]; intros Hwf Hres obj groups Hemit.
  - exists obj, groups. rewrite app_nil_r. repeat split; auto.
  - inversion Hwf as [|? ? Hf Hwf']; subst.
    inversion Hres as [|? ? Hk Hres']; subst.
    destruct (entry_of_well_formed f Hf) as (v & Hentry & Hback & _).
    destruct (is_reserved_false _ Hk) as [Hid Hname].
    destruct (add_entry_emits (key f) v f _ groups Hback Hemit)
      as (groups1 & Hemit1 & Hperm1).
    rewrite <- filter_add_entry in Hemit1 by assumption.
    destruct (IH Hwf' Hres' _ _ Hemit1)
      as (obj' & groups' & Hadd & Hi & Hn & Hemit' & Hperm').
    exists obj', groups'. cbn [add_fields]. rewrite Hentry.
    cbn [mbind outcome_bind]. split; [assumption|].
    rewrite Hi, Hn, !entry_lookup_add_entry by assumption.
    repeat split; try assumption.
    rewrite Hperm', Hperm1. now rewrite <- app_assoc.
Qed.

Lemma object_round_trip (o : ApiObject) :
  well_formed_object o -> unreserved_object o ->
  exists d o',
    object_to_definition o = Done d
    /\ definition_to_object d = Done o'
    /\ same_object o o'.
Proof.
  intros Hwf Hres.
  destruct (add_fields_emits (fields o) Hwf Hres
              [("id", Scalar (id o)); ("name", Scalar (name o))] [])
    as (d & groups & Hadd & Hi & Hn & Hemit & Hperm).
  { reflexivity. }
  exists d, (mk_object (id o) (name o) (concat groups)).
  split; [exact Hadd|]. split.
  - unfold definition_to_object, required_string. rewrite Hi, Hn. simpl.
    now rewrite Hemit.
  - repeat split. simpl. now rewrite Hperm.
Qed.

Lemma objects_round_trip (X : list ApiObject) :
  Forall well_formed_object X -> Forall unreserved_object X ->
  exists ds Y,
    mapM object_to_definition X = Done ds
    /\ mapM definition_to_object ds = Done Y
    /\ same_objects X Y.
Proof.
  induction X as [|o X IH]; intros Hwf Hres.
  - exists [], []. repeat split. constructor.
  - inversion Hwf; inversion Hres; subst.
    destruct (object_round_trip o) as (d & o' & Hd & Ho & Hsame); auto.
    destruct IH as (ds & Y & Hds & HY & Hall); auto.
    exists (d :: ds), (o' :: Y). cbn [mapM]. rewrite Hd, Hds. simpl.
    rewrite Ho, HY. simpl. repeat split. now constructor.
Qed.

End RoundTrip.

(** C1 (as the translator of the spec has it): for every sequence of API
    objects whose fields each carry exactly one of stringValue and
    refValue and are not named [id] or [name], translating to the
    definition document and back succeeds and returns the same objects
    in the same order, each with its id, its name and its fields up to
    their order; so does [translate_definition] followed by
    [add_to_params] on the objects it produced. *)
Theorem definition_round_trip (X : list ApiObject) :
  Forall well_formed_object X -> Forall unreserved_object X ->
  exists Y, Translator.round_trip X = Translator.Done Y
            /\ Translator.same_objects X Y
            /\ exists objs,
                 translate_definition (Some X) = Translator.Done (Some objs)
                 /\ add_to_params (Some (Translator.mk_document objs))
                    = Translator.Done (Some Y).
Proof.
  intros Hwf Hres.
  destruct (objects_round_trip X Hwf Hres) as (ds & Y & Hds & HY & Hsame).
  exists Y.
  unfold Translator.round_trip, translate_definition, add_to_params,
    Translator.api_to_definition, Translator.definition_to_api.
  rewrite Hds. simpl. rewrite HY. split; [reflexivity|].
  split; [assumption|]. exists ds. simpl. now rewrite HY.
Qed.

Lemma definition_round_trip_witness :
  let X := [mk_object "Default" "Default"
              [mk_field "dependsOn" None (Some "A");
               mk_field "type" (Some "ShellCommandActivity") None;
               mk_field "dependsOn" None (Some "B")]] in
  exists Y,
    Translator.round_trip X = Translator.Done Y
    /\ Translator.same_objects X Y
    /\ exists objs,
         translate_definition (Some X) = Translator.Done (Some objs)
         /\ add_to_params (Some (Translator.mk_document objs))
            = Translator.Done (Some Y).
Proof.
  intros X. apply definition_round_trip.
  - apply List.Forall_cons; [|apply List.Forall_nil].
    unfold well_formed_object; simpl.
    repeat (apply List.Forall_cons; [one_value|]). apply List.Forall_nil.
  - apply List.Forall_cons; [|apply List.Forall_nil].
    unfold unreserved_object; simpl.
    repeat (apply List.Forall_cons; [reflexivity|]). apply List.Forall_nil.
Defined.

(** C1, the claim refuted: the object below is well formed, each field
    carrying exactly one value, but its field is named [id].  In the
    definition the key [id] repeats, so the identifier and the field's
    value are accumulated in one sequence under [id]; no field is left to
    emit on the way back and [id] is no longer a string. *)
Lemma reserved_key_counterexample :
  let X := [mk_object "o1" "n1" [mk_field "id" (Some "x") None]] in
  Forall well_formed_object X
  /\ Translator.api_to_definition X
     = Translator.Done
         (Translator.mk_document
            [[("id", Translator.Sequence
                       [Translator.Scalar "o1"; Translator.Scalar "x"]);
              ("name", Translator.Scalar "n1")]])
  /\ Translator.round_trip X
     = Translator.Fail Translator.UnsupportedValueTypeError
  /\ ~ (exists Y, Translator.round_trip X = Translator.Done Y
                  /\ Translator.same_objects X Y).
Proof.
  simpl. split; [|split; [|split]].
  - apply List.Forall_cons; [|apply List.Forall_nil].
    apply List.Forall_cons; [one_value|apply List.Forall_nil].
  - reflexivity.
  - reflexivity.
  - intros (Y & HY & _). discriminate HY.
Qed.

(** ** The help document of [get-pipeline-definition] *)

Section HelpDocFacts.

Import HelpDoc.

Lemma pop_to_output_found (later earlier : Document) :
  OUTPUT_SECTION ∉ later ->
  pop_to_output (later ++ OUTPUT_SECTION :: earlier) = Some earlier.
Proof.
  induction later as [|w later IH]; intros Hnot; cbn [app pop_to_output].
  - now rewrite String.eqb_refl.
  - apply not_elem_of_cons in Hnot as [Hw Hlater].
    destruct (String.eqb_spec w OUTPUT_SECTION) as [->|_]; [contradiction|].
    now apply IH.
Qed.

Lemma pop_to_output_none (doc : Document) :
  pop_to_output doc = None <-> OUTPUT_SECTION ∉ doc.
Proof.
  induction doc as [|w doc IH]; cbn [pop_to_output].
  - split; [intros _; apply not_elem_of_nil|reflexivity].
  - destruct (String.eqb_spec w OUTPUT_SECTION) as [->|Hne].
    + split; [discriminate|]. intros Hnot. exfalso. apply Hnot. left.
    + rewrite IH, not_elem_of_cons. split; [intros; split; congruence|tauto].
Qed.

End HelpDocFacts.

(** X1: [document_translation] drops every write made after the latest
    "Output" heading, keeps everything written before it, and leaves the
    heading followed by the text about the pipeline definition on top. *)
Theorem document_translation_keeps_head
    (help_command : string) (later earlier : HelpDoc.Document) :
  HelpDoc.OUTPUT_SECTION ∉ later ->
  HelpDoc.document_translation help_command
    (later ++ HelpDoc.OUTPUT_SECTION :: earlier)
  = HelpDoc.Written
      (HelpDoc.OUTPUT_TEXT :: HelpDoc.OUTPUT_SECTION :: earlier).
Proof.
  intros Hnot. unfold HelpDoc.document_translation.
  now rewrite pop_to_output_found.
Qed.

Lemma document_translation_keeps_head_witness :
  HelpDoc.document_translation "get-pipeline-definition"
    (["--output (string)"; "Examples"]
       ++ HelpDoc.OUTPUT_SECTION :: ["Synopsis"])
  = HelpDoc.Written
      [HelpDoc.OUTPUT_TEXT; HelpDoc.OUTPUT_SECTION; "Synopsis"].
Proof.
  apply (document_translation_keeps_head "get-pipeline-definition"
           ["--output (string)"; "Examples"] ["Synopsis"]).
  apply (bool_decide_unpack _). vm_compute. exact I.
Defined.

(** X2: [document_translation] raises DocSectionNotFoundError, with the
    message that names the command, exactly when no write of the document
    is the "Output" heading. *)
Theorem document_translation_not_found
    (help_command : string) (doc : HelpDoc.Document) :
  HelpDoc.document_translation help_command doc
  = HelpDoc.DocSectionNotFoundError (HelpDoc.not_found_message help_command)
  <-> HelpDoc.OUTPUT_SECTION ∉ doc.
Proof.
  unfold HelpDoc.document_translation. rewrite <- pop_to_output_none.
  destruct (HelpDoc.pop_to_output doc); split; congruence.
Qed.

(** X3: a document that [document_translation] has rewritten is left as
    it is by a second run. *)
Theorem document_translation_idempotent
    (help_command : string) (doc doc' : HelpDoc.Document) :
  HelpDoc.document_translation help_command doc = HelpDoc.Written doc' ->
  HelpDoc.document_translation help_command doc' = HelpDoc.Written doc'.
Proof.
  unfold HelpDoc.document_translation.
  destruct (HelpDoc.pop_to_output doc) as [rest|]; [|discriminate].
  intros [= <-]. cbn [HelpDoc.pop_to_output].
  replace (String.eqb HelpDoc.OUTPUT_TEXT HelpDoc.OUTPUT_SECTION) with false
    by (vm_compute; reflexivity).
  now rewrite String.eqb_refl.
Qed.

Lemma document_translation_idempotent_witness :
  HelpDoc.document_translation "get-pipeline-definition"
    [HelpDoc.OUTPUT_TEXT; HelpDoc.OUTPUT_SECTION; "Synopsis"]
  = HelpDoc.Written
      [HelpDoc.OUTPUT_TEXT; HelpDoc.OUTPUT_SECTION; "Synopsis"].
Proof.
  apply (document_translation_idempotent "get-pipeline-definition"
           ["Examples"; HelpDoc.OUTPUT_SECTION; "Synopsis"]).
  vm_compute. reflexivity.
Defined.

(** ** The argument table of [put-pipeline-definition] *)

(** X4: [add_pipeline_definition] sets the entry [pipeline-definition] to
    a required PipelineDefinitionArgument with the help text, leaves every
    other entry but [pipeline-objects] alone, and removes
    [pipeline-objects]; on a table without [pipeline-objects] it raises
    KeyError after the new entry is set. *)
Theorem add_pipeline_definition_table
    (argument_table : gmap string ArgumentTable.Argument) :
  let '(table, outcome) :=
    ArgumentTable.add_pipeline_definition argument_table in
  table !! "pipeline-definition"
  = Some (ArgumentTable.PipelineDefinitionArgument "pipeline-definition" true
            ArgumentTable.HELP_TEXT)
  /\ (forall k, k <> "pipeline-definition" -> k <> "pipeline-objects" ->
                table !! k = argument_table !! k)
  /\ match argument_table !! "pipeline-objects" with
     | Some _ => outcome = Ok tt /\ table !! "pipeline-objects" = None
     | None => outcome = Raise (KeyError "pipeline-objects")
     end.
Proof.
  unfold ArgumentTable.add_pipeline_definition.
  rewrite lookup_insert_ne by discriminate.
  destruct (argument_table !! "pipeline-objects") as [old|] eqn:Hold.
  - split; [|split; [|split]].
    + rewrite lookup_delete_ne by discriminate. apply lookup_insert_eq.
    + intros k Hd Ho. rewrite lookup_delete_ne by congruence.
      now rewrite lookup_insert_ne by congruence.
    + reflexivity.
    + apply lookup_delete_eq.
  - split; [|split].
    + apply lookup_insert_eq.
    + intros k Hd Ho. now rewrite lookup_insert_ne by congruence.
    + reflexivity.
Qed.

(** ** The shape of the query *)

Section QueryShape.

Lemma time_selector_between (field lo hi : string) :
  field = "@actualStartTime" \/ field = "@scheduleStartTime" ->
  time_selector (between field lo hi).
Proof. intros Hfield. repeat split. exact Hfield. Qed.

(** The time selectors of a query that was built: one or two, on
    different fields, followed by the status selector. *)
Lemma build_query_times (self : QueryArgBuilder) (parsed_args : ParsedArgs)
    (query : RunQuery) :
  build_query self parsed_args = Ok query ->
  exists times,
    selectors query = times ++ status_selectors (status parsed_args)
    /\ (1 <= length times <= 2)%nat
    /\ Forall time_selector times
    /\ NoDup (map fieldName times).
Proof.
  destruct parsed_args as [pid st start sched].
  destruct start as [start|], sched as [sched|].
  - intros Hq.
    destruct (decide (has_bounds (Some start) /\ has_bounds (Some sched)))
      as [[Hs Hc]|Hn].
    + rewrite build_query_explicit, schedule_times_ok in Hq by auto.
      injection Hq as <-. cbn [selectors].
      destruct start as [|a [|b l]]; simpl in Hs; try lia.
      destruct sched as [|c [|d l']]; simpl in Hc; try lia.
      eexists. split; [reflexivity|]. cbn [interval_selectors app length].
      split; [lia|]. split; [all_between|].
      apply NoDup_cons. split; [|apply NoDup_singleton].
      intros Hin. apply list_elem_of_singleton in Hin. discriminate.
    + rewrite build_query_unbounded in Hq by auto. discriminate.
  - intros Hq.
    destruct (decide (has_bounds (Some start) /\ has_bounds None))
      as [[Hs Hc]|Hn].
    + rewrite build_query_explicit, schedule_times_ok in Hq by auto.
      injection Hq as <-. cbn [selectors].
      destruct start as [|a [|b l]]; simpl in Hs; try lia.
      eexists. split; [reflexivity|]. cbn [interval_selectors app length].
      split; [lia|]. split; [all_between|apply NoDup_singleton].
    + rewrite build_query_unbounded in Hq by auto. discriminate.
  - intros Hq.
    destruct (decide (has_bounds None /\ has_bounds (Some sched)))
      as [[Hs Hc]|Hn].
    + rewrite build_query_explicit, schedule_times_ok in Hq by auto.
      injection Hq as <-. cbn [selectors].
      destruct sched as [|c [|d l']]; simpl in Hc; try lia.
      eexists. split; [reflexivity|]. cbn [interval_selectors app length].
      split; [lia|]. split; [all_between|apply NoDup_singleton].
    + rewrite build_query_unbounded in Hq by auto. discriminate.
  - unfold build_query. cbn [start_interval schedule_interval status].
    destruct (sub_days (current_time self) 4) as [t|e]; [|discriminate].
    cbn [mbind result_bind]. rewrite build_status_spec. intros [= <-].
    exists [between "@actualStartTime" (strftime_iso t)
                    (strftime_iso (current_time self))].
    split; [reflexivity|]. cbn [app length].
    split; [lia|]. split; [all_between|apply NoDup_singleton].
Qed.

End QueryShape.

(** X5: a query that [build_query] returns holds one or two BETWEEN
    selectors with two bounds each, on [@actualStartTime] or
    [@scheduleStartTime], then the status selector when statuses were
    given, and no two of its selectors are on the same field. *)
Theorem query_shape (self : QueryArgBuilder) (parsed_args : ParsedArgs)
    (query : RunQuery) :
  build_query self parsed_args = Ok query ->
  exists times,
    selectors query = times ++ status_selectors (status parsed_args)
    /\ (1 <= length times <= 2)%nat
    /\ Forall time_selector times
    /\ NoDup (map fieldName (selectors query)).
Proof.
  intros Hq.
  destruct (build_query_times _ _ _ Hq) as (times & Hsel & Hlen & Hall & Hnd).
  exists times. repeat (split; [assumption || lia|]).
  rewrite Hsel, map_app.
  destruct (status parsed_args) as [vals|]; simpl.
  - apply NoDup_app. split; [assumption|]. split; [|apply NoDup_singleton].
    intros field Hin Hst. apply list_elem_of_singleton in Hst as ->.
    apply list_elem_of_fmap in Hin as (sel & Hname & Hsel').
    rewrite Forall_forall in Hall.
    destruct (Hall sel Hsel') as (_ & _ & [Hf|Hf]); congruence.
  - now rewrite app_nil_r.
Qed.

Lemma query_shape_witness :
  exists times,
    [between "@actualStartTime" "2024-01-01" "2024-01-05";
     between "@scheduleStartTime" "2024-01-02" "2024-01-03";
     mk_selector "@status" (mk_operator "EQ" ["running"])]
    = times ++ status_selectors (Some ["running"])
    /\ (1 <= length times <= 2)%nat
    /\ Forall time_selector times
    /\ NoDup ["@actualStartTime"; "@scheduleStartTime"; "@status"].
Proof.
  apply (query_shape (mk_builder (mk_datetime 2024 1 10 0 0 0))
           (mk_parsed_args "df-1" (Some ["running"])
              (Some ["2024-01-01"; "2024-01-05"])
              (Some ["2024-01-02"; "2024-01-03"]))
           (mk_query
              [between "@actualStartTime" "2024-01-01" "2024-01-05";
               between "@scheduleStartTime" "2024-01-02" "2024-01-03";
               mk_selector "@status" (mk_operator "EQ" ["running"])])).
  reflexivity.
Defined.

(** ** From the command line to the query *)

Section ParsedArguments.

Import ListRunsCommand.

Lemma split_length (c : ascii) (s : string) :
  length (split c s) = S (count_char c s).
Proof.
  induction s as [|a s IH]; cbn [split count_char]; [reflexivity|].
  destruct (Ascii.eqb a c).
  - cbn [length]. now rewrite IH.
  - destruct (split c s) as [|piece pieces]; cbn [length] in *; lia.
Qed.

Lemma split_csv_length (s : string) :
  length (split_csv s) = S (count_char "," s).
Proof. unfold split_csv. now rewrite length_map, split_length. Qed.

Lemma validate_ok_iff (toks : list string) :
  _validate_status_choices toks = Ok tt
  <-> Forall (fun tok => tok ∈ VALID_STATUS) toks.
Proof.
  split; [|apply validate_all_valid].
  induction toks as [|t toks IH]; cbn [_validate_status_choices];
    [constructor|].
  unfold str_in. destruct (decide (t ∈ VALID_STATUS)) as [Hin|Hout].
  - rewrite bool_decide_eq_true_2 by assumption. intros H.
    constructor; auto.
  - rewrite bool_decide_eq_false_2 by assumption. discriminate.
Qed.

Lemma parse_ok_inv (args : CliArgs) (parsed : ParsedArgs) :
  _parse_type_args args = Ok parsed ->
  parsed = mk_parsed_args (cli_pipeline_id args)
             (split_csv <$> cli_status args)
             (split_csv <$> cli_start_interval args)
             (split_csv <$> cli_schedule_interval args)
  /\ status_accepted (cli_status args).
Proof.
  unfold _parse_type_args, status_accepted.
  destruct (cli_status args) as [csv|];
    cbn [mbind result_bind fmap option_fmap option_map].
  - destruct (_validate_status_choices (split_csv csv)) as [[]|e] eqn:Hv;
      cbn [mbind result_bind]; [|discriminate].
    intros [= <-]. split; [reflexivity|]. now apply validate_ok_iff.
  - intros [= <-]. split; [reflexivity|exact I].
Qed.

Lemma parse_ok (args : CliArgs) :
  status_accepted (cli_status args) ->
  _parse_type_args args
  = Ok (mk_parsed_args (cli_pipeline_id args)
          (split_csv <$> cli_status args)
          (split_csv <$> cli_start_interval args)
          (split_csv <$> cli_schedule_interval args)).
Proof.
  unfold _parse_type_args, status_accepted.
  destruct (cli_status args) as [csv|]; [|reflexivity].
  intros Hall. now rewrite (validate_all_valid _ Hall).
Qed.

Lemma has_bounds_split (interval : option string) :
  has_bounds (split_csv <$> interval) <-> has_comma interval.
Proof.
  destruct interval as [s|]; cbn; [|tauto].
  rewrite split_csv_length. lia.
Qed.

Lemma has_bounds_dec (start schedule : option (list string)) :
  {has_bounds start /\ has_bounds schedule}
  + {~ (has_bounds start /\ has_bounds schedule)}.
Proof.
  destruct start as [l|], schedule as [l'|]; cbn;
    try destruct (le_dec 2 (length l));
    try destruct (le_dec 2 (length l')); (left; tauto) || (right; tauto).
Qed.

End ParsedArguments.

(** X6: when an interval option is given on the command line, the query
    is built exactly when every interval option given holds a comma;
    otherwise [build_query] raises IndexError. *)
Theorem cli_interval_needs_comma
    (self : QueryArgBuilder) (args : ListRunsCommand.CliArgs) :
  status_accepted (ListRunsCommand.cli_status args) ->
  ListRunsCommand.cli_start_interval args <> None
  \/ ListRunsCommand.cli_schedule_interval args <> None ->
  exists parsed,
    ListRunsCommand._parse_type_args args = Ok parsed
    /\ (is_ok (build_query self parsed) = true
        <-> has_comma (ListRunsCommand.cli_start_interval args)
            /\ has_comma (ListRunsCommand.cli_schedule_interval args))
    /\ (is_ok (build_query self parsed) = false ->
        build_query self parsed
        = Raise (IndexError "list index out of range")).
Proof.
  intros Hst Hpresent. eexists. split; [now apply parse_ok|].
  assert (Hp : ListRunsCommand.split_csv
                 <$> ListRunsCommand.cli_start_interval args <> None
               \/ ListRunsCommand.split_csv
                    <$> ListRunsCommand.cli_schedule_interval args <> None).
  { destruct Hpresent as [H|H]; [left|right];
      (destruct (ListRunsCommand.cli_start_interval args),
         (ListRunsCommand.cli_schedule_interval args);
       cbn; congruence). }
  rewrite <- !has_bounds_split.
  set (start := ListRunsCommand.split_csv
                  <$> ListRunsCommand.cli_start_interval args) in *.
  set (sched := ListRunsCommand.split_csv
                  <$> ListRunsCommand.cli_schedule_interval args) in *.
  destruct (has_bounds_dec start sched) as [[Hs Hc]|Hn].
  - rewrite build_query_explicit, schedule_times_ok by assumption.
    cbn [mbind result_bind is_ok]. split; [tauto|discriminate].
  - rewrite build_query_unbounded by assumption.
    cbn [is_ok]. split; [split; [discriminate|tauto]|reflexivity].
Qed.

Lemma cli_interval_needs_comma_witness :
  exists parsed,
    ListRunsCommand._parse_type_args
      (ListRunsCommand.mk_cli_args "df-1" None (Some "2024-01-01") None)
    = Ok parsed
    /\ build_query (mk_builder (mk_datetime 2024 1 10 0 0 0)) parsed
       = Raise (IndexError "list index out of range").
Proof.
  destruct (cli_interval_needs_comma
              (mk_builder (mk_datetime 2024 1 10 0 0 0))
              (ListRunsCommand.mk_cli_args "df-1" None (Some "2024-01-01")
                 None))
    as (parsed & Hparse & _ & Hraise).
  - exact I.
  - left. discriminate.
  - exists parsed. split; [exact Hparse|].
    apply Hraise. injection Hparse as <-. reflexivity.
Defined.

(** X7: an EQ selector of the query built from parsed command-line
    arguments is the [@status] selector; its values are the tokens of the
    status option, there is at least one, and each is a valid status. *)
Theorem query_statuses_valid
    (self : QueryArgBuilder) (args : ListRunsCommand.CliArgs)
    (parsed : ParsedArgs) (query : RunQuery) (sel : RunSelector) :
  ListRunsCommand._parse_type_args args = Ok parsed ->
  build_query self parsed = Ok query ->
  sel ∈ selectors query -> type (operator sel) = "EQ" ->
  fieldName sel = "@status"
  /\ values (operator sel) <> []
  /\ Forall (fun tok => tok ∈ ListRunsCommand.VALID_STATUS)
            (values (operator sel))
  /\ exists csv, ListRunsCommand.cli_status args = Some csv
                 /\ values (operator sel) = ListRunsCommand.split_csv csv.
Proof.
  intros Hparse Hbuild Hsel Htype.
  apply parse_ok_inv in Hparse as [-> Hacc].
  destruct (build_query_times _ _ _ Hbuild) as (times & Hq & _ & Htimes & _).
  rewrite Hq in Hsel. apply elem_of_app in Hsel as [Hsel|Hsel].
  - rewrite Forall_forall in Htimes.
    destruct (Htimes sel Hsel) as (Hb & _). congruence.
  - cbn [status] in Hsel.
    destruct (ListRunsCommand.cli_status args) as [csv|]; cbn in Hsel.
    + apply list_elem_of_singleton in Hsel as ->. cbn.
      split; [reflexivity|]. split; [|split; [exact Hacc|now exists csv]].
      intros Hnil. apply (f_equal length) in Hnil.
      rewrite split_csv_length in Hnil. discriminate.
    + now apply elem_of_nil in Hsel.
Qed.

Lemma query_statuses_valid_witness :
  Forall (fun tok => tok ∈ ListRunsCommand.VALID_STATUS)
         ["running"; "failed"].
Proof.
  apply (query_statuses_valid
           (mk_builder (mk_datetime 2024 1 10 0 0 0))
           (ListRunsCommand.mk_cli_args "df-1" (Some "running, failed")
              (Some "2024-01-01, 2024-01-05") None)
           (mk_parsed_args "df-1" (Some ["running"; "failed"])
              (Some ["2024-01-01"; "2024-01-05"]) None)
           (mk_query
              [between "@actualStartTime" "2024-01-01" "2024-01-05";
               mk_selector "@status"
                 (mk_operator "EQ" ["running"; "failed"])])
           (mk_selector "@status" (mk_operator "EQ" ["running"; "failed"]))).
  - vm_compute. reflexivity.
  - reflexivity.
  - right. left.
  - reflexivity.
Defined.

(** X8: when [_parse_type_args] raises, the error is the ValueError for
    the first token of the status option that is not a valid status;
    every token before it is valid. *)
Theorem first_invalid_status_reported
    (args : ListRunsCommand.CliArgs) (csv : string) (e : exn) :
  ListRunsCommand.cli_status args = Some csv ->
  ListRunsCommand._parse_type_args args = Raise e ->
  exists accepted tok rest,
    ListRunsCommand.split_csv csv = accepted ++ tok :: rest
    /\ Forall (fun t => t ∈ ListRunsCommand.VALID_STATUS) accepted
    /\ (tok ∉ ListRunsCommand.VALID_STATUS)
    /\ e = ValueError (invalid_status_message tok).
Proof.
  intros Hst. unfold ListRunsCommand._parse_type_args. rewrite Hst.
  generalize (ListRunsCommand.split_csv csv). intros toks.
  destruct (ListRunsCommand._validate_status_choices toks) as [[]|e'] eqn:Hv;
    cbn [mbind result_bind]; [discriminate|].
  intros [= <-]. revert Hv.
  induction toks as [|t toks IH];
    cbn [ListRunsCommand._validate_status_choices]; [discriminate|].
  unfold str_in.
  destruct (decide (t ∈ ListRunsCommand.VALID_STATUS)) as [Hin|Hout].
  - rewrite bool_decide_eq_true_2 by assumption. intros Hv.
    destruct (IH Hv) as (accepted & tok & rest & -> & Hacc & Hbad & ->).
    exists (t :: accepted), tok, rest. repeat split; auto.
  - rewrite bool_decide_eq_false_2 by assumption. intros [= <-].
    exists [], t, toks. repeat split; auto.
Qed.

Lemma first_invalid_status_reported_witness :
  exists accepted tok rest,
    ListRunsCommand.split_csv "running, bogus, worse"
    = accepted ++ tok :: rest
    /\ Forall (fun t => t ∈ ListRunsCommand.VALID_STATUS) accepted
    /\ (tok ∉ ListRunsCommand.VALID_STATUS)
    /\ ValueError (invalid_status_message "bogus")
       = ValueError (invalid_status_message tok).
Proof.
  apply (first_invalid_status_reported
           (ListRunsCommand.mk_cli_args "df-1"
              (Some "running, bogus, worse") None None)
           "running, bogus, worse"
           (ValueError (invalid_status_message "bogus"))).
  - reflexivity.
  - vm_compute. reflexivity.
Defined.

(** ** The keys and the rows of converted objects *)

Section NormalizedRecords.

Lemma last_field_some (k : string) (fs : list ApiField) :
  is_Some (last_field k fs) <-> k ∈ map key fs.
Proof.
  unfold last_field. split.
  - intros [f Hf]. apply find_some in Hf as [Hin Heq].
    apply String.eqb_eq in Heq as <-.
    apply list_elem_of_In, in_map, in_rev, Hin.
  - intros Hin. apply list_elem_of_In, in_map_iff in Hin as (f & <- & Hf).
    destruct (find (fun f0 => String.eqb (key f0) (key f)) (rev fs))
      as [g|] eqn:Hfind; [now exists g|].
    apply in_rev in Hf. pose proof (find_none _ _ Hfind f Hf) as Hne.
    cbn beta in Hne. rewrite String.eqb_refl in Hne. discriminate.
Qed.

Lemma record_has_key (obj : ApiObject) (k : string) :
  is_Some (convert_object obj !! k)
  <-> k = "@id" \/ k = "name" \/ k ∈ map key (fields obj).
Proof.
  rewrite convert_object_lookup. unfold record_entry.
  rewrite <- last_field_some.
  destruct (last_field k (fields obj)) as [f|].
  - split; [intros _; right; right; now exists f|intros _; eauto].
  - destruct (String.eqb_spec k "name") as [->|Hn].
    + split; [auto|eauto].
    + destruct (String.eqb_spec k "@id") as [->|Hi].
      * split; [auto|eauto].
      * split; [intros [x Hx]; discriminate|].
        intros [?|[?|[x Hx]]]; [contradiction..|discriminate].
Qed.

Lemma shown_column_text (obj : ApiObject) (k : string) :
  k <> "name" -> shown (convert_object obj) k = column_text obj k.
Proof.
  intros Hk. unfold shown, column_text.
  rewrite convert_object_lookup. unfold record_entry.
  destruct (last_field k (fields obj)) as [f|].
  - now destruct (stringValue f), (refValue f).
  - destruct (String.eqb_spec k "name"); [contradiction|].
    now destruct (String.eqb k "@id").
Qed.

End NormalizedRecords.

(** X9: the keys of the record of an object are [@id], [name] and the
    keys of its fields, and no other. *)
Theorem record_keys (obj : ApiObject) :
  dom (convert_object obj)
  = {[ "@id"; "name" ]} ∪ field_keys (fields obj).
Proof.
  apply set_eq. intros k.
  rewrite elem_of_dom, record_has_key. unfold field_keys.
  rewrite elem_of_union, elem_of_union, !elem_of_singleton,
    elem_of_list_to_set.
  tauto.
Qed.

(** X10: the row of a converted object is printed exactly when one of its
    fields is keyed [@componentParent], and fails with KeyError on that
    key otherwise; each column shows the value of the last field of its
    key, cut or padded to the column, with the text None for a field that
    has neither a string nor a reference value. *)
Theorem converted_row (index : Z) (obj : ApiObject) :
  (is_ok (ListRunsFormatter.row_lines index (convert_object obj)) = true
   <-> "@componentParent" ∈ map key (fields obj))
  /\ (is_ok (ListRunsFormatter.row_lines index (convert_object obj)) = false ->
      ListRunsFormatter.row_lines index (convert_object obj)
      = Raise (KeyError "@componentParent"))
  /\ (forall first_row second_row,
        ListRunsFormatter.row_lines index (convert_object obj)
        = Ok (first_row, second_row) ->
        first_row
        = fmt_rjust_d 4 (index + 1) +:+ ".  "
          +:+ cut_pad 50 (column_text obj "@componentParent")
          +:+ "  " +:+ cut_pad 19 (column_text obj "@scheduledStartTime")
          +:+ "  " +:+ cut_pad 23 (column_text obj "@status")
        /\ second_row
           = "       " +:+ cut_pad 50 (column_text obj "@id")
             +:+ "  " +:+ cut_pad 19 (column_text obj "@actualStartTime")
             +:+ "  " +:+ cut_pad 19 (column_text obj "@actualEndTime")).
Proof.
  assert (Hid : is_Some (convert_object obj !! "@id")).
  { apply record_has_key. now left. }
  destruct Hid as [oid Hoid].
  destruct (convert_object obj !! "@componentParent") as [parent|] eqn:Hp.
  - assert (Hin : "@componentParent" ∈ map key (fields obj)).
    { assert (Hs : is_Some (convert_object obj !! "@componentParent"))
        by (rewrite Hp; eauto).
      apply record_has_key in Hs as [?|[?|?]]; [discriminate..|assumption]. }
    rewrite (row_lines_ok index _ parent oid Hp Hoid). cbn [is_ok].
    split; [tauto|]. split; [discriminate|].
    intros first_row second_row [= <- <-].
    rewrite <- !shown_column_text by discriminate.
    assert (Hcp : shown (convert_object obj) "@componentParent"
                  = str_of_value parent) by (unfold shown; now rewrite Hp).
    assert (Hio : shown (convert_object obj) "@id" = str_of_value oid)
      by (unfold shown; now rewrite Hoid).
    now rewrite Hcp, Hio.
  - assert (Hnot : ~ "@componentParent" ∈ map key (fields obj)).
    { intros Hin.
      assert (Hs : is_Some (convert_object obj !! "@componentParent"))
        by (apply record_has_key; auto).
      rewrite Hp in Hs. destruct Hs; discriminate. }
    assert (Hrow : ListRunsFormatter.row_lines index (convert_object obj)
                   = Raise (KeyError "@componentParent")).
    { unfold ListRunsFormatter.row_lines, dict_getitem. now rewrite Hp. }
    rewrite Hrow. cbn [is_ok].
    split; [split; [discriminate|tauto]|]. split; [reflexivity|discriminate].
Qed.

(** ** The sort of [_list_runs] at its edges *)

Section SortEdges.

Lemma name_ltb_iff (n1 n2 : string) :
  key_ltb (None, Some n1) (None, Some n2) = true <-> String_as_OT.lt n1 n2.
Proof.
  unfold key_ltb; cbn [py_lt py_eq PyOrd_pair PyOrd_value fst snd].
  rewrite bool_decide_eq_true_2 by reflexivity.
  destruct (decide (n1 = n2)) as [->|Hn].
  - rewrite bool_decide_eq_true_2 by reflexivity.
    split; [discriminate|]. intros Hlt. now apply slt_irrefl in Hlt.
  - rewrite bool_decide_eq_false_2 by congruence. apply slt_iff.
Qed.

Lemma name_ltb_false_iff (n1 n2 : string) :
  key_ltb (None, Some n1) (None, Some n2) = false
  <-> n2 = n1 \/ String_as_OT.lt n2 n1.
Proof.
  rewrite <- not_true_iff_false, name_ltb_iff. split.
  - intros Hn. destruct (slt_total n2 n1) as [?|[?|?]]; auto. contradiction.
  - intros [->|Hlt] Hgt.
    + now apply slt_irrefl in Hgt.
    + exact (slt_irrefl _ (String_as_OT.lt_trans _ _ _ Hlt Hgt)).
Qed.

(** Only [TypeError] comes out of the comparison of two keys. *)
Lemma key_lt_raises (a b : option string * option string) (e : exn) :
  py_lt a b = Raise e -> exists msg, e = TypeError msg.
Proof.
  destruct a as [[a1|] [a2|]], b as [[b1|] [b2|]];
    cbn [py_lt py_eq PyOrd_pair PyOrd_value fst snd];
    repeat destruct (bool_decide _); intros [= <-]; eauto.
Qed.

(** A comparison of two keys that returns has met the scheduled start
    on both sides or on neither. *)
Lemma key_lt_same_presence (a b : option string * option string) (c : bool) :
  py_lt a b = Ok c -> (fst a = None <-> fst b = None).
Proof.
  destruct a as [[a1|] a2], b as [[b1|] b2];
    cbn [py_lt py_eq PyOrd_pair PyOrd_value fst snd].
  - intros _. split; discriminate.
  - rewrite bool_decide_eq_false_2 by discriminate. discriminate.
  - rewrite bool_decide_eq_false_2 by discriminate. discriminate.
  - intros _. tauto.
Qed.

Lemma sort_insert_raises (x : Record_) (l : list Record_) (e : exn) :
  sort_insert ListRunsCommand.sort_key x l = Raise e ->
  exists msg, e = TypeError msg.
Proof.
  induction l as [|y l IH]; cbn [sort_insert]; [discriminate|].
  destruct (py_lt (ListRunsCommand.sort_key y) (ListRunsCommand.sort_key x))
    as [[]|e'] eqn:Hlt; cbn [mbind result_bind].
  - destruct (sort_insert ListRunsCommand.sort_key x l) as [p|e'];
      cbn [mbind result_bind]; [discriminate|].
    intros [= <-]. now apply IH.
  - discriminate.
  - intros [= <-]. now apply key_lt_raises in Hlt.
Qed.

Lemma list_sort_raises (l : list Record_) (e : exn) :
  list_sort ListRunsCommand.sort_key l = Raise e ->
  exists msg, e = TypeError msg.
Proof.
  induction l as [|x l IH]; cbn [list_sort]; [discriminate|].
  destruct (list_sort ListRunsCommand.sort_key l) as [mid|e'];
    cbn [mbind result_bind].
  - apply sort_insert_raises.
  - intros [= <-]. now apply IH.
Qed.

Lemma list_sort_same_presence (l sorted : list Record_) :
  list_sort ListRunsCommand.sort_key l = Ok sorted ->
  forall x y, x ∈ l -> y ∈ l -> (scheduled x = None <-> scheduled y = None).
Proof.
  revert sorted. induction l as [|x l IH]; intros sorted Hsort.
  - intros a b Ha. now apply elem_of_nil in Ha.
  - cbn [list_sort] in Hsort.
    destruct (list_sort ListRunsCommand.sort_key l) as [mid|e] eqn:Hmid;
      cbn [mbind result_bind] in Hsort; [|discriminate].
    specialize (IH mid eq_refl).
    assert (Hhead : forall y, y ∈ l ->
               (scheduled x = None <-> scheduled y = None)).
    { apply list_sort_permutation in Hmid.
      destruct mid as [|z mid].
      - apply Permutation_nil in Hmid. subst l.
        intros y Hy. now apply elem_of_nil in Hy.
      - cbn [sort_insert] in Hsort.
        destruct (py_lt (ListRunsCommand.sort_key z)
                        (ListRunsCommand.sort_key x)) as [c|e] eqn:Hlt;
          cbn [mbind result_bind] in Hsort; [|discriminate].
        apply key_lt_same_presence in Hlt. cbn [fst ListRunsCommand.sort_key] in Hlt.
        fold (scheduled z) (scheduled x) in Hlt.
        assert (Hz : z ∈ l) by (rewrite <- Hmid; left).
        intros y Hy. rewrite <- Hlt. apply IH; assumption. }
    intros a b Ha Hb.
    apply elem_of_cons in Ha as [->|Ha], Hb as [->|Hb].
    + tauto.
    + now apply Hhead.
    + symmetry. now apply Hhead.
    + now apply IH.
Qed.

End SortEdges.

Lemma list_runs_sort_stable_witness :
  let early : Record_ :=
    <["@scheduledStartTime" := Some "2024-01-01T00:00:00"]>
      (<["name" := Some "b"]> ∅) in
  let late : Record_ :=
    <["@scheduledStartTime" := Some "2024-01-02T00:00:00"]>
      (<["name" := Some "a"]> ∅) in
  exists sorted,
    list_sort ListRunsCommand.sort_key [late; early] = Ok sorted
    /\ sorted ≡ₚ [late; early]
    /\ StronglySorted
         (fun a b => key_ltb (ListRunsCommand.sort_key b)
                             (ListRunsCommand.sort_key a) = false) sorted
    /\ forall k, filter (fun r => ListRunsCommand.sort_key r = k) sorted
                 = filter (fun r => ListRunsCommand.sort_key r = k)
                     [late; early].
Proof.
  intros early late. apply (list_runs_sort_stable [late; early]).
  repeat (apply List.Forall_cons;
          [eexists _, _; split; reflexivity|]).
  apply List.Forall_nil.
Defined.

(** X12: on records that all lack a scheduled start and hold a string
    under [name], the sort of [_list_runs] returns the same records
    ordered by name, and records of the same name keep the order they
    came in. *)
Theorem unscheduled_sorted_by_name (records : list Record_) :
  Forall lacks_schedule records ->
  exists sorted,
    list_sort ListRunsCommand.sort_key records = Ok sorted
    /\ sorted ≡ₚ records
    /\ StronglySorted
         (fun a b => key_ltb (ListRunsCommand.sort_key b)
                             (ListRunsCommand.sort_key a) = false) sorted
    /\ forall k, filter (fun r => ListRunsCommand.sort_key r = k) sorted
                 = filter (fun r => ListRunsCommand.sort_key r = k) records.
Proof.
  intros Hkeys.
  apply (list_sort_stable ListRunsCommand.sort_key name_key key_ltb).
  - intros a b (n1 & ->) (n2 & ->).
    unfold key_ltb. cbn [py_lt py_eq PyOrd_pair PyOrd_value fst snd].
    rewrite bool_decide_eq_true_2 by reflexivity.
    destruct (bool_decide _); reflexivity.
  - intros a (n & ->). apply name_ltb_false_iff. now left.
  - intros a b (n1 & ->) (n2 & ->) Hlt.
    apply name_ltb_false_iff. right. now apply name_ltb_iff.
  - intros a b c (n1 & ->) (n2 & ->) (n3 & ->).
    rewrite !name_ltb_false_iff.
    intros [Hab|Hab] [Hbc|Hbc].
    + left. congruence.
    + right. now rewrite Hab.
    + right. now rewrite <- Hbc.
    + right. eapply String_as_OT.lt_trans; eassumption.
  - eapply Forall_impl; [exact Hkeys|].
    intros r (n & Hs & Hn). exists n.
    unfold ListRunsCommand.sort_key. fold (scheduled r).
    unfold dict_get. now rewrite Hs, Hn.
Qed.

Lemma unscheduled_sorted_by_name_witness :
  let second : Record_ := <["name" := Some "b"]> ∅ in
  let first : Record_ := <["name" := Some "a"]> ∅ in
  exists sorted,
    list_sort ListRunsCommand.sort_key [second; first] = Ok sorted
    /\ sorted ≡ₚ [second; first]
    /\ StronglySorted
         (fun a b => key_ltb (ListRunsCommand.sort_key b)
                             (ListRunsCommand.sort_key a) = false) sorted
    /\ forall k, filter (fun r => ListRunsCommand.sort_key r = k) sorted
                 = filter (fun r => ListRunsCommand.sort_key r = k)
                     [second; first].
Proof.
  intros second first. apply (unscheduled_sorted_by_name [second; first]).
  repeat (apply List.Forall_cons;
          [eexists; split; reflexivity|]).
  apply List.Forall_nil.
Defined.

(** X13: when one described object has no field keyed
    [@scheduledStartTime] and another has one with a string value,
    [convert_described_objects] with the sort key of [_list_runs] raises
    TypeError. *)
Theorem mixed_schedule_raises (objs : list ApiObject) (o1 o2 : ApiObject)
    (s : string) :
  o1 ∈ objs -> o2 ∈ objs ->
  "@scheduledStartTime" ∉ map key (fields o1) ->
  record_entry o2 "@scheduledStartTime" = Some (Some s) ->
  exists msg,
    convert_described_objects objs (Some ListRunsCommand.sort_key)
    = Raise (TypeError msg).
Proof.
  intros H1 H2 Hnone Hsome. unfold convert_described_objects.
  destruct (list_sort ListRunsCommand.sort_key (map convert_object objs))
    as [sorted|e] eqn:Hsort.
  - exfalso.
    pose proof (list_sort_same_presence _ _ Hsort
                  (convert_object o1) (convert_object o2)) as Hsame.
    assert (Hs1 : scheduled (convert_object o1) = None).
    { unfold scheduled, dict_get.
      destruct (convert_object o1 !! "@scheduledStartTime") as [v|] eqn:Hv;
        [|reflexivity].
      exfalso. apply Hnone.
      assert (Hk : is_Some (convert_object o1 !! "@scheduledStartTime"))
        by (rewrite Hv; eauto).
      apply record_has_key in Hk as [?|[?|?]]; [discriminate..|assumption]. }
    assert (Hs2 : scheduled (convert_object o2) = Some s).
    { unfold scheduled, dict_get. now rewrite convert_object_lookup, Hsome. }
    apply Hsame in Hs1; [congruence| |];
      apply list_elem_of_fmap; eauto.
  - destruct (list_sort_raises _ _ Hsort) as [msg ->]. now exists msg.
Qed.

Lemma mixed_schedule_raises_witness :
  exists msg,
    convert_described_objects
      [mk_object "o-1" "first" [];
       mk_object "o-2" "second"
         [mk_field "@scheduledStartTime" (Some "2024-01-01T00:00:00")
            None]]
      (Some ListRunsCommand.sort_key)
    = Raise (TypeError msg).
Proof.
  apply (mixed_schedule_raises _
           (mk_object "o-1" "first" [])
           (mk_object "o-2" "second"
              [mk_field "@scheduledStartTime"
                 (Some "2024-01-01T00:00:00") None])
           "2024-01-01T00:00:00").
  - left.
  - right. left.
  - apply not_elem_of_nil.
  - reflexivity.
Defined.

(** ** The table as a whole *)

Section Display.

Import ListRunsFormatter.

Lemma print_headers_events (log : list event) :
  _print_headers log = (log ++ header_events, Ok tt).
Proof.
  unfold _print_headers, stream_write, perform, mbind, IO_bind.
  cbv zeta. rewrite <- !app_assoc. cbn [app].
  replace (String.length
             (SECOND_ROW_FORMAT_STRING (Some "ID") (Some "Started")
                (Some "Ended"))) with 99%nat by (vm_compute; reflexivity).
  reflexivity.
Qed.

Lemma row_lines_complete (i : Z) (obj : Record_) :
  ~ lacks_required obj ->
  exists first_row second_row, row_lines i obj = Ok (first_row, second_row).
Proof.
  intros Hobj.
  destruct (lacks_required_dec obj) as [Hlack|(parent & oid & Hp & Hi)];
    [contradiction|].
  rewrite (row_lines_ok i obj parent oid Hp Hi). eexists _, _. reflexivity.
Qed.

Lemma print_rows_from (written : list Record_) :
  Forall (fun obj => ~ lacks_required obj) written ->
  forall (rest : list Record_) (i : nat) (log : list event),
    print_rows (Z.of_nat i) (written ++ rest) log
    = print_rows (Z.of_nat (i + length written)) rest
        (log ++ rows_from i written).
Proof.
  induction 1 as [|obj written Hobj _ IH]; intros rest i log.
  - cbn [app length rows_from]. now rewrite Nat.add_0_r, app_nil_r.
  - cbn [app print_rows length rows_from]. unfold mbind, IO_bind.
    destruct (row_lines_complete (Z.of_nat i) obj Hobj) as (r1 & r2 & Hrow).
    rewrite (print_row_ok _ _ _ _ _ Hrow).
    replace (Z.of_nat i + 1) with (Z.of_nat (S i)) by lia.
    rewrite IH. unfold row_events. rewrite Hrow.
    rewrite <- app_assoc. do 2 f_equal. lia.
Qed.

Lemma length_rows_from (objects : list Record_) :
  Forall (fun obj => ~ lacks_required obj) objects ->
  forall i, length (rows_from i objects) = (4 * length objects)%nat.
Proof.
  induction 1 as [|obj objects Hobj _ IH]; intros i; [reflexivity|].
  cbn [rows_from length]. rewrite length_app, IH. unfold row_events.
  destruct (row_lines_complete (Z.of_nat i) obj Hobj) as (r1 & r2 & ->).
  cbn [length]. lia.
Qed.

Lemma display_complete (objects : list Record_) (log : list event) :
  Forall (fun obj => ~ lacks_required obj) objects ->
  display_objects_to_user objects log
  = (log ++ header_events ++ rows_events objects, Ok tt).
Proof.
  intros Hall. unfold display_objects_to_user, mbind, IO_bind.
  rewrite print_headers_events.
  pose proof (print_rows_from objects Hall [] 0 (log ++ header_events))
    as Hrows.
  rewrite app_nil_r in Hrows. change (Z.of_nat 0) with 0 in Hrows.
  rewrite Hrows. cbn [print_rows mret IO_ret].
  now rewrite <- app_assoc.
Qed.

Lemma print_rows_writes (objects : list Record_) :
  forall (i : Z) (log : list event),
    exists writes result,
      print_rows i objects log = (log ++ writes, result)
      /\ Forall is_write writes.
Proof.
  induction objects as [|obj objects IH]; intros i log.
  - exists [], (Ok tt). rewrite app_nil_r. split; [reflexivity|constructor].
  - cbn [print_rows]. unfold mbind, IO_bind.
    destruct (row_lines i obj) as [[r1 r2]|e] eqn:Hrow.
    + rewrite (print_row_ok _ _ _ _ _ Hrow).
      destruct (IH (i + 1) (log ++ [StreamWrite r1; StreamWrite (String "010" "");
                                    StreamWrite r2;
                                    StreamWrite (String "010" (String "010" ""))]))
        as (ws & r & -> & Hws).
      eexists _, r. rewrite <- app_assoc. split; [reflexivity|].
      repeat (apply List.Forall_cons; [exact I|]). exact Hws.
    + rewrite (print_row_raise _ _ _ _ Hrow).
      exists [], (Raise e). rewrite app_nil_r. split; [reflexivity|constructor].
Qed.

Lemma display_writes (objects : list Record_) (log : list event) :
  exists writes result,
    display_objects_to_user objects log = (log ++ writes, result)
    /\ Forall is_write writes /\ writes <> [].
Proof.
  unfold display_objects_to_user, mbind, IO_bind.
  rewrite print_headers_events.
  destruct (print_rows_writes objects 0 (log ++ header_events))
    as (ws & r & -> & Hws).
  exists (header_events ++ ws), r. rewrite <- app_assoc.
  split; [reflexivity|]. split; [|discriminate].
  apply Forall_app. split; [|assumption].
  repeat (apply List.Forall_cons; [exact I|]). constructor.
Qed.

End Display.

(** X14: for records that all hold [@componentParent] and [@id],
    [display_objects_to_user] writes the three header lines, the last of
    them 99 dashes, then the two lines of every record in order, numbered
    from 1, and returns: six writes and four more for each record. *)
Theorem display_complete_records (objects : list Record_) (log : list event) :
  Forall (fun obj => ~ lacks_required obj) objects ->
  ListRunsFormatter.display_objects_to_user objects log
  = (log ++ header_events ++ rows_events objects, Ok tt)
  /\ length (header_events ++ rows_events objects)
     = (6 + 4 * length objects)%nat.
Proof.
  intros Hall. split.
  - now apply display_complete.
  - rewrite length_app. unfold rows_events.
    now rewrite length_rows_from.
Qed.

Lemma display_complete_records_witness :
  let obj : Record_ :=
    <["@status" := Some "finished"]>
      (<["@id" := Some "df-123"]> (<["@componentParent" := Some "Foo"]> ∅)) in
  ListRunsFormatter.display_objects_to_user [obj; obj] []
  = ([] ++ header_events ++ rows_events [obj; obj], Ok tt)
  /\ length (header_events ++ rows_events [obj; obj]) = 14%nat.
Proof.
  intros obj. apply (display_complete_records [obj; obj] []).
  repeat (apply List.Forall_cons;
          [intros [Hnone|Hnone]; vm_compute in Hnone; discriminate Hnone|]).
  apply List.Forall_nil.
Defined.

(** X15: [display_objects_to_user] stops at the first record that lacks
    [@componentParent] or [@id] with the KeyError of that key: the header
    and the rows of the records before it are written, and nothing of that
    record or of the later ones. *)
Theorem display_stops_at_incomplete_record
    (written rest : list Record_) (bad : Record_) (log : list event) :
  Forall (fun obj => ~ lacks_required obj) written ->
  lacks_required bad ->
  exists k,
    k ∈ ["@componentParent"; "@id"]
    /\ ListRunsFormatter.display_objects_to_user (written ++ bad :: rest) log
       = (log ++ header_events ++ rows_events written, Raise (KeyError k)).
Proof.
  intros Hall Hbad.
  destruct (row_lines_missing (Z.of_nat (length written)) bad Hbad)
    as (k & Hk & Hrow).
  exists k. split; [assumption|].
  unfold ListRunsFormatter.display_objects_to_user, mbind, IO_bind.
  rewrite print_headers_events.
  pose proof (print_rows_from written Hall (bad :: rest) 0
                (log ++ header_events)) as Hrows.
  change (Z.of_nat 0) with 0 in Hrows. rewrite Hrows.
  cbn [ListRunsFormatter.print_rows Nat.add]. unfold mbind, IO_bind.
  rewrite (print_row_raise _ _ _ _ Hrow).
  now rewrite <- app_assoc.
Qed.

Lemma display_stops_at_incomplete_record_witness :
  let good : Record_ :=
    <["@id" := Some "df-123"]> (<["@componentParent" := Some "Foo"]> ∅) in
  let bad : Record_ := <["@id" := Some "df-124"]> ∅ in
  exists k,
    k ∈ ["@componentParent"; "@id"]
    /\ ListRunsFormatter.display_objects_to_user ([good] ++ bad :: [good]) []
       = ([] ++ header_events ++ rows_events [good], Raise (KeyError k)).
Proof.
  intros good bad.
  apply (display_stops_at_incomplete_record [good] [good] bad []).
  - apply List.Forall_cons; [|apply List.Forall_nil].
    intros [Hnone|Hnone]; vm_compute in Hnone; discriminate Hnone.
  - left. reflexivity.
Defined.

(** ** The command as a whole *)

(** X16: whatever the session and the service answer, [_run_main]
    performs an initial part of get_service, get_endpoint, QueryObjects,
    DescribeObjects in this order and then only writes to the stream.
    QueryObjects is called only with the query built from arguments that
    parsed, DescribeObjects only with the ids QueryObjects returned, and
    nothing is written unless all four were performed and the objects
    were converted. *)
Theorem run_effects_in_order
    (svc : Service) (args : ListRunsCommand.CliArgs) (log : list event) :
  let pipeline := ListRunsCommand.cli_pipeline_id args in
  exists (n : nat) query object_ids writes result,
    ListRunsCommand._run_main svc args log
    = (log ++ take n (call_events pipeline query object_ids) ++ writes,
       result)
    /\ Forall is_write writes
    /\ (writes <> [] -> n = 4%nat)
    /\ ((3 <= n)%nat ->
        exists parsed,
          ListRunsCommand._parse_type_args args = Ok parsed
          /\ build_query (mk_builder (utcnow svc)) parsed = Ok query)
    /\ ((4 <= n)%nat ->
        exists response,
          QueryObjects svc pipeline query = Ok response
          /\ response !! "ids" = Some object_ids)
    /\ (writes <> [] ->
        exists response objects records,
          DescribeObjects svc pipeline object_ids = Ok response
          /\ response !! "pipelineObjects" = Some objects
          /\ convert_described_objects objects
               (Some ListRunsCommand.sort_key) = Ok records).
Proof.
  intros pipeline.
  unfold ListRunsCommand._run_main, ListRunsCommand._set_session_objects,
    perform, lift, mbind, IO_bind.
  destruct (get_service svc "datapipeline") as [[]|e].
  2: { exists 1%nat, (mk_query []), [], [], (Raise e). cbn [take call_events app].
       repeat split; try constructor; try congruence; lia. }
  destruct (get_endpoint svc) as [[]|e].
  2: { exists 2%nat, (mk_query []), [], [], (Raise e).
       cbn [take call_events app]. rewrite <- app_assoc.
       repeat split; try constructor; try congruence; lia. }
  destruct (ListRunsCommand._parse_type_args args) as [parsed|e] eqn:Hparse.
  2: { exists 2%nat, (mk_query []), [], [], (Raise e).
       cbn [take call_events app]. rewrite <- app_assoc.
       repeat split; try constructor; try congruence; lia. }
  assert (Hpid : pipeline_id parsed = pipeline).
  { apply parse_ok_inv in Hparse as [-> _]. reflexivity. }
  unfold ListRunsCommand._list_runs, ListRunsCommand._query_objects,
    ListRunsCommand._describe_objects, perform, lift, mbind, IO_bind.
  rewrite Hpid.
  destruct (build_query (mk_builder (utcnow svc)) parsed) as [query|e]
    eqn:Hbuild.
  2: { exists 2%nat, (mk_query []), [], [], (Raise e).
       cbn [take call_events app]. rewrite <- app_assoc.
       repeat split; try constructor; try congruence; lia. }
  destruct (QueryObjects svc pipeline query) as [qresp|e] eqn:Hquery.
  2: { exists 3%nat, query, [], [], (Raise e).
       cbn [take call_events app]. rewrite <- !app_assoc.
       repeat split; try constructor; try congruence; try lia.
       intros _. now exists parsed. }
  unfold dict_getitem at 1.
  destruct (qresp !! "ids") as [ids|] eqn:Hids.
  2: { exists 3%nat, query, [], [], (Raise (KeyError "ids")).
       cbn [take call_events app]. rewrite <- !app_assoc.
       repeat split; try constructor; try congruence; try lia.
       intros _. now exists parsed. }
  assert (Hcalls : forall l : list event,
             (((log ++ [GetService "datapipeline"]) ++ [GetEndpoint])
                ++ [CallQueryObjects pipeline "INSTANCE" query])
               ++ [CallDescribeObjects pipeline ids] ++ l
             = log ++ take 4 (call_events pipeline query ids) ++ l).
  { intros l. cbn [take call_events app]. now rewrite <- !app_assoc. }
  destruct (DescribeObjects svc pipeline ids) as [dresp|e] eqn:Hdesc.
  2: { exists 4%nat, query, ids, [], (Raise e).
       rewrite <- Hcalls, !app_nil_r, <- !app_assoc.
       repeat split; try constructor; try congruence; try lia.
       - intros _. now exists parsed.
       - intros _. now exists qresp. }
  unfold dict_getitem.
  destruct (dresp !! "pipelineObjects") as [objs|] eqn:Hobjs.
  2: { exists 4%nat, query, ids, [], (Raise (KeyError "pipelineObjects")).
       rewrite <- Hcalls, !app_nil_r, <- !app_assoc.
       repeat split; try constructor; try congruence; try lia.
       - intros _. now exists parsed.
       - intros _. now exists qresp. }
  destruct (convert_described_objects objs (Some ListRunsCommand.sort_key))
    as [records|e] eqn:Hconv.
  2: { exists 4%nat, query, ids, [], (Raise e).
       rewrite <- Hcalls, !app_nil_r, <- !app_assoc.
       repeat split; try constructor; try congruence; try lia.
       - intros _. now exists parsed.
       - intros _. now exists qresp. }
  destruct (display_writes records
              ((((log ++ [GetService "datapipeline"]) ++ [GetEndpoint])
                  ++ [CallQueryObjects pipeline "INSTANCE" query])
                 ++ [CallDescribeObjects pipeline ids]))
    as (ws & r & -> & Hws & _).
  exists 4%nat, query, ids, ws, r.
  rewrite <- Hcalls, <- !app_assoc.
  split; [reflexivity|]. split; [assumption|]. split; [reflexivity|].
  split; [intros _; now exists parsed|].
  split; [intros _; now exists qresp|].
  intros _. now exists dresp, objs, records.
Qed.

Section RunSteps.

Import ListRunsCommand.

(** [_run_main] after the session is set up and the query is built. *)
Lemma run_main_steps (svc : Service) (args : CliArgs) (log : list event)
    (parsed : ParsedArgs) (query : RunQuery) :
  get_service svc "datapipeline" = Ok tt ->
  get_endpoint svc = Ok tt ->
  _parse_type_args args = Ok parsed ->
  build_query (mk_builder (utcnow svc)) parsed = Ok query ->
  _run_main svc args log
  = match QueryObjects svc (cli_pipeline_id args) query with
    | Raise e =>
        (log ++ take 3 (call_events (cli_pipeline_id args) query []), Raise e)
    | Ok answer =>
        match answer !! "ids" with
        | None =>
            (log ++ take 3 (call_events (cli_pipeline_id args) query []),
             Raise (KeyError "ids"))
        | Some object_ids =>
            let log' :=
              log ++ call_events (cli_pipeline_id args) query object_ids in
            match DescribeObjects svc (cli_pipeline_id args) object_ids with
            | Raise e => (log', Raise e)
            | Ok described =>
                match described !! "pipelineObjects" with
                | None => (log', Raise (KeyError "pipelineObjects"))
                | Some objects =>
                    match convert_described_objects objects (Some sort_key)
                    with
                    | Raise e => (log', Raise e)
                    | Ok converted =>
                        ListRunsFormatter.display_objects_to_user converted
                          log'
                    end
                end
            end
        end
    end.
Proof.
  intros Hservice Hendpoint Hparse Hbuild.
  assert (Hpid : pipeline_id parsed = cli_pipeline_id args).
  { apply parse_ok_inv in Hparse as [-> _]. reflexivity. }
  unfold _run_main, _set_session_objects, _list_runs, _query_objects,
    _describe_objects, perform, lift, mbind, IO_bind.
  rewrite Hservice, Hendpoint, Hparse, Hbuild, Hpid.
  cbn [take call_events app]. rewrite <- !app_assoc. cbn [app].
  destruct (QueryObjects svc (cli_pipeline_id args) query) as [answer|e];
    [|reflexivity].
  unfold dict_getitem at 1.
  destruct (answer !! "ids") as [object_ids|]; [|reflexivity].
  cbv zeta. rewrite <- !app_assoc. cbn [app].
  destruct (DescribeObjects svc (cli_pipeline_id args) object_ids)
    as [described|e]; [|reflexivity].
  unfold dict_getitem.
  destruct (described !! "pipelineObjects") as [objects|]; [|reflexivity].
  destruct (convert_described_objects objects (Some sort_key));
    reflexivity.
Qed.

Lemma converted_complete (objects : list ApiObject) (records : list Record_) :
  Forall (fun obj => "@componentParent" ∈ map key (fields obj)) objects ->
  convert_described_objects objects (Some sort_key) = Ok records ->
  records ≡ₚ map convert_object objects
  /\ Forall (fun record => ~ lacks_required record) records.
Proof.
  intros Hparent Hconv. unfold convert_described_objects in Hconv.
  apply list_sort_permutation in Hconv.
  split; [exact Hconv|].
  rewrite Hconv. apply Forall_fmap.
  eapply Forall_impl; [exact Hparent|].
  intros obj Hin [Hnone|Hnone].
  - assert (Hs : is_Some (convert_object obj !! "@componentParent"))
      by (apply record_has_key; auto).
    rewrite Hnone in Hs. destruct Hs; discriminate.
  - assert (Hs : is_Some (convert_object obj !! "@id"))
      by (apply record_has_key; auto).
    rewrite Hnone in Hs. destruct Hs; discriminate.
Qed.

End RunSteps.

(** X17: once the session is set up and the query is built, an error of
    QueryObjects or of DescribeObjects ends [_run_main] with that error,
    and an answer without [ids] (or without [pipelineObjects]) ends it
    with the KeyError of that key; in each case the calls made so far are
    the only effects, and nothing is written. *)
Theorem run_failure_surfaces
    (svc : Service) (args : ListRunsCommand.CliArgs) (log : list event)
    (parsed : ParsedArgs) (query : RunQuery) :
  get_service svc "datapipeline" = Ok tt ->
  get_endpoint svc = Ok tt ->
  ListRunsCommand._parse_type_args args = Ok parsed ->
  build_query (mk_builder (utcnow svc)) parsed = Ok query ->
  let pipeline := ListRunsCommand.cli_pipeline_id args in
  let run := ListRunsCommand._run_main svc args log in
  (forall e,
      QueryObjects svc pipeline query = Raise e ->
      run = (log ++ take 3 (call_events pipeline query []), Raise e))
  /\ (forall answer,
        QueryObjects svc pipeline query = Ok answer ->
        answer !! "ids" = None ->
        run = (log ++ take 3 (call_events pipeline query []),
               Raise (KeyError "ids")))
  /\ (forall answer object_ids,
        QueryObjects svc pipeline query = Ok answer ->
        answer !! "ids" = Some object_ids ->
        (forall e,
            DescribeObjects svc pipeline object_ids = Raise e ->
            run = (log ++ call_events pipeline query object_ids, Raise e))
        /\ (forall described,
              DescribeObjects svc pipeline object_ids = Ok described ->
              described !! "pipelineObjects" = None ->
              run = (log ++ call_events pipeline query object_ids,
                     Raise (KeyError "pipelineObjects")))).
Proof.
  intros Hservice Hendpoint Hparse Hbuild pipeline run.
  subst run pipeline.
  rewrite (run_main_steps svc args log parsed query) by assumption.
  split; [intros e ->; reflexivity|].
  split; [intros answer -> ->; reflexivity|].
  intros answer object_ids -> ->. cbv zeta.
  split; [intros e ->; reflexivity|].
  intros described -> ->. reflexivity.
Qed.

Lemma run_failure_surfaces_witness :
  let args := ListRunsCommand.mk_cli_args "df-1" None
                (Some "2024-01-01, 2024-01-05") None in
  let query :=
    mk_query [between "@actualStartTime" "2024-01-01" "2024-01-05"] in
  ListRunsCommand._run_main
    (mk_service (mk_datetime 2024 1 10 0 0 0) (fun _ => Ok tt) (Ok tt)
       (fun _ _ => Raise (KeyError "throttled")) (fun _ _ => Ok ∅))
    args []
  = ([GetService "datapipeline"; GetEndpoint;
      CallQueryObjects "df-1" "INSTANCE" query],
     Raise (KeyError "throttled")).
Proof.
  intros args query.
  apply (proj1 (run_failure_surfaces
                  (mk_service (mk_datetime 2024 1 10 0 0 0)
                     (fun _ => Ok tt) (Ok tt)
                     (fun _ _ => Raise (KeyError "throttled"))
                     (fun _ _ => Ok ∅))
                  args []
                  (mk_parsed_args "df-1" None
                     (Some ["2024-01-01"; "2024-01-05"]) None)
                  query eq_refl eq_refl eq_refl eq_refl)).
  reflexivity.
Defined.

(** X18: when both service calls answer, every described object has a
    field keyed [@componentParent] and the sort returns, [_run_main]
    performs the four calls, writes the header and the two lines of every
    object in sorted order, and returns; the rows are those of the
    converted objects, so the output has six writes and four more for
    each described object. *)
Theorem run_lists_every_object
    (svc : Service) (args : ListRunsCommand.CliArgs) (log : list event)
    (parsed : ParsedArgs) (query : RunQuery)
    (answer : gmap string (list string)) (object_ids : list string)
    (described : gmap string (list ApiObject)) (objects : list ApiObject)
    (records : list Record_) :
  get_service svc "datapipeline" = Ok tt ->
  get_endpoint svc = Ok tt ->
  ListRunsCommand._parse_type_args args = Ok parsed ->
  build_query (mk_builder (utcnow svc)) parsed = Ok query ->
  QueryObjects svc (ListRunsCommand.cli_pipeline_id args) query = Ok answer ->
  answer !! "ids" = Some object_ids ->
  DescribeObjects svc (ListRunsCommand.cli_pipeline_id args) object_ids
  = Ok described ->
  described !! "pipelineObjects" = Some objects ->
  Forall (fun obj => "@componentParent" ∈ map key (fields obj)) objects ->
  convert_described_objects objects (Some ListRunsCommand.sort_key)
  = Ok records ->
  ListRunsCommand._run_main svc args log
  = (log ++ call_events (ListRunsCommand.cli_pipeline_id args) query
              object_ids
         ++ header_events ++ rows_events records,
     Ok tt)
  /\ records ≡ₚ map convert_object objects
  /\ length (header_events ++ rows_events records)
     = (6 + 4 * length objects)%nat.
Proof.
  intros Hservice Hendpoint Hparse Hbuild Hquery Hids Hdescribe Hobjects
    Hparent Hconv.
  destruct (converted_complete objects records Hparent Hconv)
    as [Hperm Hcomplete].
  rewrite (run_main_steps svc args log parsed query) by assumption.
  rewrite Hquery, Hids. cbv zeta. rewrite Hdescribe, Hobjects, Hconv.
  rewrite (display_complete records _ Hcomplete), <- app_assoc.
  split; [reflexivity|]. split; [exact Hperm|].
  rewrite length_app. unfold rows_events.
  rewrite (length_rows_from records Hcomplete).
  apply Permutation_length in Hperm. rewrite length_map in Hperm.
  now rewrite Hperm.
Qed.

Lemma run_lists_every_object_witness :
  let obj :=
    mk_object "o-1" "first"
      [mk_field "@componentParent" None (Some "Activity")] in
  let args := ListRunsCommand.mk_cli_args "df-1" None
                (Some "2024-01-01, 2024-01-05") None in
  let query :=
    mk_query [between "@actualStartTime" "2024-01-01" "2024-01-05"] in
  ListRunsCommand._run_main
    (mk_service (mk_datetime 2024 1 10 0 0 0) (fun _ => Ok tt) (Ok tt)
       (fun _ _ => Ok {["ids" := ["o-1"]]})
       (fun _ _ => Ok {["pipelineObjects" := [obj]]}))
    args []
  = ([] ++ call_events "df-1" query ["o-1"] ++ header_events
        ++ rows_events [convert_object obj],
     Ok tt).
Proof.
  intros obj args query.
  apply (run_lists_every_object
           (mk_service (mk_datetime 2024 1 10 0 0 0) (fun _ => Ok tt) (Ok tt)
              (fun _ _ => Ok {["ids" := ["o-1"]]})
              (fun _ _ => Ok {["pipelineObjects" := [obj]]}))
           args []
           (mk_parsed_args "df-1" None
              (Some ["2024-01-01"; "2024-01-05"]) None)
           query {["ids" := ["o-1"]]} ["o-1"]
           {["pipelineObjects" := [obj]]} [obj] [convert_object obj]);
    try reflexivity.
  apply List.Forall_cons; [left|apply List.Forall_nil].
Defined.
